(** * HDPrivateKey (ts_src/hd/private.ts): a shallow embedding

    The hierarchical-deterministic keyring of the wallet: the account
    registry ([wallets]), the index cache ([_index2wallet]), the signing
    dispatch and the state codec.  Elliptic-curve arithmetic, BIP32
    derivation, address encoding, message signing and the transaction
    container are libraries outside the repository; they enter as the
    fields of the class [Primitives]. *)

From Stdlib Require Import ZArith List Lia Bool.
From Stdlib Require Import Strings.String Strings.Ascii Strings.Byte.
From stdpp Require Import gmap strings list.

Local Open Scope Z_scope.

(** ** Bytes and their hexadecimal form *)

(** [Buffer] and [Uint8Array] values. *)
Abbreviation Bytes := (list byte).

(** One hexadecimal digit, lower case, of a number below 16. *)
Definition hexDigit (n : N) : ascii :=
  if (n <? 10)%N then ascii_of_N (48 + n) else ascii_of_N (87 + n).

Definition byteToHex (b : byte) : string :=
  let n := Byte.to_N b in
  String (hexDigit (n / 16)) (String (hexDigit (n mod 16)) EmptyString).

(** [bytesToHex] of @noble/hashes/utils, imported as [toHex]; it is also
    what [Buffer.toString('hex')] returns: two lower-case digits a byte. *)
Fixpoint toHex (bs : Bytes) : string :=
  match bs with
  | [] => EmptyString
  | b :: rest => byteToHex b +:+ toHex rest
  end.

(** The value of one hexadecimal digit, either case; [None] for any other
    character. *)
Definition asciiToBase16 (c : ascii) : option N :=
  let n := N_of_ascii c in
  if ((48 <=? n) && (n <=? 57))%N then Some (n - 48)%N
  else if ((65 <=? n) && (n <=? 70))%N then Some (n - 55)%N
  else if ((97 <=? n) && (n <=? 102))%N then Some (n - 87)%N
  else None.

(** [hexToBytes] of @noble/hashes/utils, imported as [fromHex]: [None]
    stands for the error it throws on a string of odd length or with a
    character that is no hexadecimal digit. *)
Fixpoint fromHex (s : string) : option Bytes :=
  match s with
  | EmptyString => Some []
  | String _ EmptyString => None
  | String c1 (String c2 rest) =>
      match asciiToBase16 c1, asciiToBase16 c2, fromHex rest with
      | Some n1, Some n2, Some bs =>
          match Byte.of_N (n1 * 16 + n2) with
          | Some b => Some (b :: bs)
          | None => None
          end
      | _, _, _ => None
      end
  end.

(** ** Objects of the libraries *)

(** The node of the [hdkey] library: an extended key. *)
Record HDNode := mkHDNode {
  hd_privateKey : Bytes;
  hd_publicKey : Bytes;
  hd_chainCode : Bytes
}.

(** The transaction container ([Psbt]) is an object of another library that
    the keyring only calls: it is modelled by the calls it has accepted,
    oldest first. *)
Inductive PsbtCall :=
| SignInput (index : Z) (privateKey : Bytes) (sighashTypes : option (list Z))
| FinalizeAllInputs.

Abbreviation Psbt := (list PsbtCall).

(** What the source takes from outside: the libraries' functions, read as
    pure functions of their arguments, and the declarations of [./base],
    [./common] and [./types]. *)
Class Primitives : Type := {
  (** [AddressType] of ./types: the tag that selects the address encoding *)
  AddressType : Type;
  (** the value of [BaseWallet.addressType] in a newly constructed object *)
  defaultAddressType : option AddressType;
  (** [BaseWallet.getAddress], which reads [this.addressType] *)
  addressOf : option AddressType -> Bytes -> string;
  (** the placeholders of ./common *)
  ZERO_KEY : Bytes;
  ZERO_PRIVKEY : Bytes;
  (** [hdkey.fromMasterSeed], [HDNode.derive] and [HDNode.deriveChild]: the
      nodes they return.  [derive] throws on a path it cannot read and
      [deriveChild] on an index that is not an unsigned integer of 32 bits;
      they take the paths of [wellFormedPath] and the indices of
      [validIndex] below *)
  fromMasterSeed : Bytes -> HDNode;
  derive : HDNode -> string -> HDNode;
  deriveChild : HDNode -> Z -> HDNode;
  (** the public key [ECPair] computes for a private key *)
  pointFromScalar : Bytes -> Bytes;
  (** [mnemonicToSeed] of bip39: the value its promise resolves to *)
  mnemonicToSeed : string -> string -> Bytes;
  (** [bitcore.Message(text).sign(new bitcore.PrivateKey(hex))]: the
      signature a call returns.  The library draws a nonce, and two calls
      need not return the same string: no property below compares the
      signatures of two calls *)
  message_sign : string -> string -> string;
  (** [bitcore.Message(text).verify(address, sig)] *)
  message_verify : string -> string -> string -> bool;
  (** whether the container, after the calls it has accepted, accepts one
      more ([signInput] and [finalizeAllInputs] throw when it does not) *)
  psbt_accepts : Psbt -> PsbtCall -> bool
}.

(** An [ECPair] object.  Objects are compared by reference in
    [Array.includes], so each carries the identity [oid] it was allocated
    with; its public key is computed from the private one. *)
Record ECPair := mkECPair {
  oid : nat;
  ec_privateKey : Bytes
}.

Definition ec_publicKey `{Primitives} (w : ECPair) : Bytes :=
  pointFromScalar (ec_privateKey w).

(** [ToSignInput] of ./types. *)
Record ToSignInput := mkToSignInput {
  ts_index : Z;
  ts_publicKey : string;
  ts_sighashTypes : option (list Z)
}.

(** ** Errors and the state-and-error monad *)

(** Every [throw] site of the source, and the errors of the libraries. *)
Inductive error :=
| AccountAddressNotFound (address : string)
| AccountPublicKeyNotFound (publicKey : string)
| MustSpecifyPublicKey
| NoMatchingPublicKey
| OnlyRootSerializes
| DeserializeWithoutSeed
| MethodNotAllowed
| TypeError
| HexError
| PsbtError.

(** The kinds of error the specification names.  The source throws plain
    [Error] objects, told apart by their messages only; each throw site is
    filed under the kind of the situation it reports (a lookup that found
    no account, an operation the instance does not allow, a persisted state
    with a field missing), and what a library throws under [LibraryError]. *)
Inductive ErrorKind :=
| AccountNotFoundError
| InvalidOperationError
| DeserializationError
| LibraryError.

Definition kindOf (e : error) : ErrorKind :=
  match e with
  | AccountAddressNotFound _ | AccountPublicKeyNotFound _
  | MustSpecifyPublicKey | NoMatchingPublicKey => AccountNotFoundError
  | OnlyRootSerializes | MethodNotAllowed => InvalidOperationError
  | DeserializeWithoutSeed => DeserializationError
  | TypeError | HexError | PsbtError => LibraryError
  end.

(** How a call ends: with a value, with an exception, or not within the
    given number of loop iterations. *)
Inductive outcome (A : Type) :=
| Return (a : A)
| Throw (e : error)
| OutOfFuel.

Arguments Return {A} a.
Arguments Throw {A} e.
Arguments OutOfFuel {A}.

(** A computation over a mutable state [S]: the state it leaves is kept
    whatever the outcome, as a JavaScript exception undoes nothing. *)
Definition M (S A : Type) : Type := S -> outcome A * S.

Definition ret {S A} (a : A) : M S A := fun s => (Return a, s).

Definition bind {S A B} (m : M S A) (k : A -> M S B) : M S B :=
  fun s =>
    match m s with
    | (Return a, s') => k a s'
    | (Throw e, s') => (Throw e, s')
    | (OutOfFuel, s') => (OutOfFuel, s')
    end.

Definition throw {S A} (e : error) : M S A := fun s => (Throw e, s).
Definition outOfFuel {S A} : M S A := fun s => (OutOfFuel, s).
Definition gets {S A} (f : S -> A) : M S A := fun s => (Return (f s), s).
Definition modify {S} (f : S -> S) : M S unit := fun s => (Return tt, f s).

(** The world a computation leaves, and its outcome. *)
Definition exec {S A} (m : M S A) (s : S) : S := snd (m s).
Definition result {S A} (m : M S A) (s : S) : outcome A := fst (m s).

Notation "x <- c1 ;; c2" := (bind c1 (fun x => c2))
  (at level 100, c1 at next level, right associativity).
Notation "c1 ;;; c2" := (bind c1 (fun _ => c2))
  (at level 100, right associativity).

(** A computation on the first component of a pair of states. *)
Definition onFst {S T A} (m : M S A) : M (S * T) A :=
  fun st =>
    match m (fst st) with
    | (r, s') => (r, (s', snd st))
    end.

(** A computation on the second component of a pair of states. *)
Definition onSnd {S T A} (m : M T A) : M (S * T) A :=
  fun st =>
    match m (snd st) with
    | (r, t') => (r, (fst st, t'))
    end.

(** Run the computations of a list in order, for their effects
    ([Array.map] whose result is dropped). *)
Fixpoint forEach {S A} (f : A -> M S unit) (l : list A) : M S unit :=
  match l with
  | [] => ret tt
  | a :: rest => f a ;;; forEach f rest
  end.

(** What an [async] function hands to its caller. *)
Inductive Promise (A : Type) :=
| Fulfilled (a : A)
| Rejected (e : error)
| Pending.

Arguments Fulfilled {A} a.
Arguments Rejected {A} e.
Arguments Pending {A}.

(** An [async] body with no [await]: it runs at once, and an exception in it
    rejects the promise instead of reaching the caller. *)
Definition async {S A} (m : M S A) : M S (Promise A) :=
  fun s =>
    match m s with
    | (Return a, s') => (Return (Fulfilled a), s')
    | (Throw e, s') => (Return (Rejected e), s')
    | (OutOfFuel, s') => (OutOfFuel, s')
    end.

(** ** The keyring *)

Section Keyring.
Context `{Prims : Primitives}.

(** The default of the field [hdPath]. *)
Definition hdPathString : string := "m/44'/0'/0'/0"%string.

(** The fields of [HDPrivateKey], with [addressType] of [BaseWallet]. *)
Record HDPrivateKey := mkHDPrivateKey {
  addressType : option AddressType;
  childIndex : Z;
  privateKey : Bytes;
  publicKey : Bytes;
  wallets : list ECPair;
  seed : option Bytes;
  _index2wallet : gmap Z (string * ECPair);
  hdWallet : option HDNode;
  root : option HDNode;
  hdPath : string
}.

Definition set_addressType (v : option AddressType) (x : HDPrivateKey) :=
  mkHDPrivateKey v (childIndex x) (privateKey x) (publicKey x) (wallets x)
    (seed x) (_index2wallet x) (hdWallet x) (root x) (hdPath x).
Definition set_childIndex (v : Z) (x : HDPrivateKey) :=
  mkHDPrivateKey (addressType x) v (privateKey x) (publicKey x) (wallets x)
    (seed x) (_index2wallet x) (hdWallet x) (root x) (hdPath x).
Definition set_privateKey (v : Bytes) (x : HDPrivateKey) :=
  mkHDPrivateKey (addressType x) (childIndex x) v (publicKey x) (wallets x)
    (seed x) (_index2wallet x) (hdWallet x) (root x) (hdPath x).
Definition set_publicKey (v : Bytes) (x : HDPrivateKey) :=
  mkHDPrivateKey (addressType x) (childIndex x) (privateKey x) v (wallets x)
    (seed x) (_index2wallet x) (hdWallet x) (root x) (hdPath x).
Definition set_wallets (v : list ECPair) (x : HDPrivateKey) :=
  mkHDPrivateKey (addressType x) (childIndex x) (privateKey x) (publicKey x) v
    (seed x) (_index2wallet x) (hdWallet x) (root x) (hdPath x).
Definition set_seed (v : option Bytes) (x : HDPrivateKey) :=
  mkHDPrivateKey (addressType x) (childIndex x) (privateKey x) (publicKey x)
    (wallets x) v (_index2wallet x) (hdWallet x) (root x) (hdPath x).
Definition set_index2wallet (v : gmap Z (string * ECPair)) (x : HDPrivateKey) :=
  mkHDPrivateKey (addressType x) (childIndex x) (privateKey x) (publicKey x)
    (wallets x) (seed x) v (hdWallet x) (root x) (hdPath x).
Definition set_hdWallet (v : option HDNode) (x : HDPrivateKey) :=
  mkHDPrivateKey (addressType x) (childIndex x) (privateKey x) (publicKey x)
    (wallets x) (seed x) (_index2wallet x) v (root x) (hdPath x).
Definition set_root (v : option HDNode) (x : HDPrivateKey) :=
  mkHDPrivateKey (addressType x) (childIndex x) (privateKey x) (publicKey x)
    (wallets x) (seed x) (_index2wallet x) (hdWallet x) v (hdPath x).
Definition set_hdPath (v : string) (x : HDPrivateKey) :=
  mkHDPrivateKey (addressType x) (childIndex x) (privateKey x) (publicKey x)
    (wallets x) (seed x) (_index2wallet x) (hdWallet x) (root x) v.

(** The object the field initialisers leave, before a constructor body. *)
Definition newHDPrivateKey : HDPrivateKey :=
  mkHDPrivateKey defaultAddressType 0 ZERO_PRIVKEY ZERO_KEY [] None ∅ None None
    hdPathString.

(** [SerializedHDKey] of ./types; [numberOfAccounts] may be absent. *)
Record SerializedHDKey := mkSerializedHDKey {
  ser_numberOfAccounts : option Z;
  ser_seed : string;
  ser_addressType : option AddressType
}.

(** What is left of [fromMnemonic] after its [await]: the seed the promise
    of [mnemonicToSeed] resolves to, for the rest of the body to use. *)
Inductive Job :=
| ResumeFromMnemonic (resolved : Bytes).

(** The state a call runs in: the keyring in focus ([this]), the next free
    object identity, the jobs suspended at an [await], and a record of the
    indices [deriveChild] was called with, newest first (the counting stub
    of the derivation primitive). *)
Record World := mkWorld {
  self : HDPrivateKey;
  next_oid : nat;
  jobs : list Job;
  deriveChild_calls : list Z
}.

Definition on_self (f : HDPrivateKey -> HDPrivateKey) (w : World) : World :=
  mkWorld (f (self w)) (next_oid w) (jobs w) (deriveChild_calls w).

(** [this.field] and [this.field = v]. *)
Definition this : M World HDPrivateKey := gets self.
Definition assign (f : HDPrivateKey -> HDPrivateKey) : M World unit :=
  modify (on_self f).

(** [ECPair.fromPrivateKey(d)]: a new object. *)
Definition ECPair_fromPrivateKey (d : Bytes) : M World ECPair :=
  fun w =>
    (Return (mkECPair (next_oid w) d),
     mkWorld (self w) (S (next_oid w)) (jobs w) (deriveChild_calls w)).

(** The call [root.deriveChild(i)], counted. *)
Definition call_deriveChild (r : HDNode) (i : Z) : M World HDNode :=
  fun w =>
    (Return (deriveChild r i),
     mkWorld (self w) (next_oid w) (jobs w) (i :: deriveChild_calls w)).

(** [this.getAddress(publicKey)] of [BaseWallet]. *)
Definition getAddress (x : HDPrivateKey) (pk : Bytes) : string :=
  addressOf (addressType x) pk.

(** [changeHdPath], lines 43-50. *)
Definition changeHdPath (newPath : string) : M World unit :=
  assign (set_hdPath newPath) ;;;
  x <- this ;;
  assign (set_root (option_map (fun h => derive h (hdPath x)) (hdWallet x))) ;;;
  assign (set_index2wallet ∅) ;;;
  assign (set_wallets []).

(** [verifyMessage], lines 61-65. *)
Definition verifyMessage (address text sig : string) : bool :=
  message_verify text address sig.

(** [getAccounts], lines 67-72. *)
Definition getAccounts (x : HDPrivateKey) : list string :=
  let accounts := map (fun w => getAddress x (ec_publicKey w)) (wallets x) in
  getAddress x (publicKey x) :: accounts.

(** [_addressFromIndex], lines 253-262. *)
Definition _addressFromIndex (i : Z) : M World (string * ECPair) :=
  x <- this ;;
  match _index2wallet x !! i with
  | Some entry => ret entry
  | None =>
      match root x with
      | None => throw TypeError
      | Some r =>
          child <- call_deriveChild r i ;;
          ecpair <- ECPair_fromPrivateKey (hd_privateKey child) ;;
          let address := getAddress x (ec_publicKey ecpair) in
          assign (fun y =>
            set_index2wallet (<[i := (address, ecpair)]> (_index2wallet y)) y) ;;;
          ret (address, ecpair)
      end
  end.

(** [this.wallets.includes(wallet)]: the same object, not an equal one. *)
Definition includes (ws : list ECPair) (wallet : ECPair) : bool :=
  existsb (fun w => Nat.eqb (oid w) (oid wallet)) ws.

(** The [while (count)] loop of [addAccounts], lines 80-89; [fuel] bounds
    the number of iterations. *)
Fixpoint addAccounts_loop (fuel : nat) (count currentIdx : Z)
    (newAddresses : list string) : M World (list string) :=
  if (count =? 0)%Z then ret newAddresses
  else
    match fuel with
    | O => outOfFuel
    | S fuel' =>
        entry <- _addressFromIndex currentIdx ;;
        x <- this ;;
        if includes (wallets x) (snd entry)
        then addAccounts_loop fuel' count (currentIdx + 1) newAddresses
        else
          assign (set_wallets (wallets x ++ [snd entry])) ;;;
          addAccounts_loop fuel' (count - 1) currentIdx
            (newAddresses ++ [fst entry])
    end.

(** [addAccounts], lines 74-92. *)
Definition addAccounts (fuel : nat) (number : Z) : M World (list string) :=
  x <- this ;;
  let currentIdx :=
    if Nat.eqb (length (wallets x)) 0 then 1 else Z.of_nat (length (wallets x)) in
  addAccounts_loop fuel number currentIdx [].

(** [findAccount], lines 94-102. *)
Definition findAccount (account : string) : M World ECPair :=
  x <- this ;;
  match find (fun f => String.eqb (getAddress x (ec_publicKey f)) account)
          (wallets x) with
  | Some foundAccount => ret foundAccount
  | None => throw (AccountAddressNotFound account)
  end.

(** [findAccountByPk], lines 104-110. *)
Definition findAccountByPk (pk : string) : M World ECPair :=
  x <- this ;;
  match find (fun f => String.eqb (toHex (ec_publicKey f)) pk) (wallets x) with
  | Some foundAccount => ret foundAccount
  | None => throw (AccountPublicKeyNotFound pk)
  end.

(** [exportPublicKey], lines 56-59. *)
Definition exportPublicKey (address : string) : M World string :=
  account <- findAccount address ;;
  ret (toHex (ec_publicKey account)).

(** A call of a method of the transaction container. *)
Definition psbt_call (c : PsbtCall) : M Psbt unit :=
  fun psbt =>
    if psbt_accepts psbt c then (Return tt, psbt ++ [c]) else (Throw PsbtError, psbt).

(** The callback of [inputs.map] in [signPsbt], lines 120-129: the state is
    the keyring's world and the transaction container. *)
Definition signOne (i : ToSignInput) : M (World * Psbt) unit :=
  account <- onFst (findAccountByPk (ts_publicKey i)) ;;
  onSnd (psbt_call
    (SignInput (ts_index i) (ec_privateKey account) (ts_sighashTypes i))).

(** [signPsbt], lines 117-131. *)
Definition signPsbt (inputs : list ToSignInput) : M (World * Psbt) unit :=
  forEach signOne inputs ;;;
  onSnd (psbt_call FinalizeAllInputs).

(** [_getWalletForAccount], lines 272-280. *)
Definition _getWalletForAccount (pk : string) : M World ECPair :=
  x <- this ;;
  match find (fun wallet => String.eqb (toHex (ec_publicKey wallet)) pk)
          (wallets x) with
  | Some wallet => ret wallet
  | None => throw NoMatchingPublicKey
  end.

(** [_getPrivateKeyFor], lines 264-270. *)
Definition _getPrivateKeyFor (pk : string) : M World ECPair :=
  if String.eqb pk EmptyString then throw MustSpecifyPublicKey
  else _getWalletForAccount pk.

(** [signMessage], lines 133-143. *)
Definition signMessage (address text : string) : M World string :=
  x <- this ;;
  let found :=
    find (fun f => String.eqb (getAddress x (ec_publicKey f)) address)
      (wallets x) in
  let pk :=
    match found with
    | Some f => toHex (ec_publicKey f)
    | None => EmptyString
    end in
  keyPair <- _getPrivateKeyFor pk ;;
  ret (message_sign text (toHex (ec_privateKey keyPair))).

(** [signPersonalMessage], lines 145-147. *)
Definition signPersonalMessage (address message : string) : M World string :=
  signMessage address message.

(** The four assignments that follow [this.seed = ...] in [fromSeed],
    [fromOptions] and [fromMnemonic]. *)
Definition setRoot (s : Bytes) (keysFirst : bool) : M World unit :=
  assign (set_hdWallet (Some (fromMasterSeed s))) ;;;
  x <- this ;;
  let r := derive (fromMasterSeed s) (hdPath x) in
  assign (set_root (Some r)) ;;;
  if keysFirst
  then assign (set_privateKey (hd_privateKey r)) ;;;
       assign (set_publicKey (hd_publicKey r))
  else assign (set_publicKey (hd_publicKey r)) ;;;
       assign (set_privateKey (hd_privateKey r)).

(** [fromOptions], lines 149-158: an [async] function without [await]. *)
Definition fromOptions (seedHex : string) : M World (Promise unit) :=
  async (
    assign (set_childIndex 0) ;;;
    match fromHex seedHex with
    | None => throw HexError
    | Some s =>
        assign (set_seed (Some s)) ;;;
        setRoot s false
    end).

(** [fromSeed], lines 164-173. *)
Definition fromSeed (s : Bytes) : M World unit :=
  assign (set_seed (Some s)) ;;;
  setRoot s true.

(** Running what [fromMnemonic] left suspended, once [mnemonicToSeed] has
    resolved (lines 183-188). *)
Definition runJob (j : Job) : M World unit :=
  match j with
  | ResumeFromMnemonic s =>
      assign (set_seed (Some s)) ;;;
      setRoot s false
  end.

(** [fromMnemonic], lines 179-189: it returns at its [await] with a pending
    promise, and the rest of its body waits as a job. *)
Definition fromMnemonic (mnemonic : string) (passphrase : option string)
    : M World (Promise unit) :=
  let resolved := mnemonicToSeed mnemonic (default "bells"%string passphrase) in
  modify (fun w =>
    mkWorld (self w) (next_oid w) (jobs w ++ [ResumeFromMnemonic resolved])
      (deriveChild_calls w)) ;;;
  ret Pending.

(** [fromPhrase], lines 198-201. *)
Definition fromPhrase (phrase : string) : M World unit :=
  _ <- fromMnemonic phrase None ;;
  ret tt.

(** [fromPrivateKey], lines 207-209. *)
Definition fromPrivateKey (_key : Bytes) : M World unit :=
  throw MethodNotAllowed.

(** [new this()] in a static method: the world's focus moves to the object
    just constructed, which the static method then returns. *)
Definition construct : M World unit :=
  assign (fun _ => newHDPrivateKey).

(** The constructor, lines 38-41: the promise of [fromOptions] is dropped. *)
Definition constructor (options : option string) : M World unit :=
  construct ;;;
  match options with
  | Some seedHex => _ <- fromOptions seedHex ;; ret tt
  | None => ret tt
  end.

(** The static [fromOptions], lines 160-162. *)
Definition static_fromOptions (seedHex : string) : M World (Promise unit) :=
  construct ;;; fromOptions seedHex.

(** The static [fromSeed], lines 175-177. *)
Definition static_fromSeed (s : Bytes) : M World HDPrivateKey :=
  construct ;;; fromSeed s ;;; this.

(** The static [fromPhrase], lines 203-205. *)
Definition static_fromPhrase (phrase : string) : M World HDPrivateKey :=
  construct ;;; fromPhrase phrase ;;; this.

(** [getChildCount], lines 215-217. *)
Definition getChildCount (x : HDPrivateKey) : Z :=
  Z.of_nat (length (wallets x)).

(** [serialize], lines 219-227; [toHex] throws on a seed that is not set. *)
Definition serialize : M World SerializedHDKey :=
  x <- this ;;
  if negb (childIndex x =? 0)%Z then throw OnlyRootSerializes
  else
    match seed x with
    | None => throw HexError
    | Some s =>
        ret (mkSerializedHDKey (Some (getChildCount x)) (toHex s) (addressType x))
    end.

(** The static [deserialize], lines 229-243. *)
Definition static_deserialize (fuel : nat) (opts : SerializedHDKey)
    : M World HDPrivateKey :=
  match ser_numberOfAccounts opts with
  | None => throw DeserializeWithoutSeed
  | Some numberOfAccounts =>
      if String.eqb (ser_seed opts) EmptyString then throw DeserializeWithoutSeed
      else
        match fromHex (ser_seed opts) with
        | None => throw HexError
        | Some s =>
            _ <- static_fromSeed s ;;
            assign (set_addressType (ser_addressType opts)) ;;;
            if (numberOfAccounts =? 0)%Z then this
            else
              _ <- addAccounts fuel numberOfAccounts ;;
              this
        end
  end.

(** A call of a static method from a method of an object: that object is in
    focus again when the call ends, however it ends. *)
Definition restoringFocus {A} (m : M World A) : M World A :=
  fun w =>
    match m w with
    | (r, w') => (r, on_self (fun _ => self w) w')
    end.

(** The instance method [deserialize], lines 245-251. *)
Definition deserialize (fuel : nat) (state : SerializedHDKey) : M World unit :=
  deserialized <- restoringFocus (static_deserialize fuel state) ;;
  match seed deserialized with
  | None => throw HexError
  | Some s =>
      _ <- fromOptions (toHex s) ;;
      ret tt
  end.

End Keyring.

(** ** The vocabulary of the properties *)

Section Vocabulary.
Context `{Prims : Primitives}.

(** A world with a newly constructed keyring in focus. *)
Definition newWorld : World := mkWorld newHDPrivateKey 0 [] [].

(** The private key of the child of [r] at index [i], and its address under
    the tag [t]. *)
Definition childKey (r : HDNode) (i : Z) : Bytes :=
  hd_privateKey (deriveChild r i).

Definition childAddress (t : option AddressType) (r : HDNode) (i : Z) : string :=
  addressOf t (pointFromScalar (childKey r i)).

(** The state of the registry and of the cache that [addAccounts] keeps: the
    registry holds the pairs of the indices 1 to its length, each the object
    the cache has for its index, and the cache has nothing else. *)
Record registry_ok (r : HDNode) (w : World) : Prop := mkRegistryOk {
  ok_root : root (self w) = Some r;
  ok_keys :
    map ec_privateKey (wallets (self w)) =
    map (childKey r) (seqZ 1 (Z.of_nat (length (wallets (self w)))));
  ok_dom : forall i,
    _index2wallet (self w) !! i = None <->
    ~ (1 <= i <= Z.of_nat (length (wallets (self w))));
  ok_cached : forall i a e,
    _index2wallet (self w) !! i = Some (a, e) ->
    wallets (self w) !! Z.to_nat (i - 1) = Some e;
  ok_fresh : Forall (fun e => (oid e < next_oid w)%nat) (wallets (self w));
  ok_nodup : NoDup (map oid (wallets (self w)))
}.

(** What [addAccounts] and the cache never touch. *)
Definition same_identity (x y : HDPrivateKey) : Prop :=
  addressType y = addressType x /\ childIndex y = childIndex x /\
  privateKey y = privateKey x /\ publicKey y = publicKey x /\
  seed y = seed x /\ hdWallet y = hdWallet x /\ root y = root x /\
  hdPath y = hdPath x.

(** The world after a cache miss at [i]. *)
Definition afterMiss (w : World) (r : HDNode) (i : Z) : World :=
  let e := mkECPair (next_oid w) (childKey r i) in
  mkWorld
    (set_index2wallet
       (<[i := (getAddress (self w) (ec_publicKey e), e)]> (_index2wallet (self w)))
       (self w))
    (S (next_oid w)) (jobs w) (i :: deriveChild_calls w).

(** The world after the pair derived at [i] has been registered. *)
Definition afterPush (w : World) (r : HDNode) (i : Z) : World :=
  on_self
    (set_wallets (wallets (self w) ++ [mkECPair (next_oid w) (childKey r i)]))
    (afterMiss w r i).

(** A sequence of [addAccounts] calls, one for each count of [ns]. *)
Definition addAccountsMany (fuel : nat) (ns : list Z) : M World unit :=
  forEach (fun n => _ <- addAccounts fuel n ;; ret tt) ns.

(** The total of a list of counts. *)
Definition total (ns : list Z) : Z := fold_right Z.add 0 ns.

(** The uses of the cache during the lifetime of a path: a lookup, or a call
    of [addAccounts], the method that looks indices up. *)
Inductive CacheUse :=
| Lookup (i : Z)
| AddAccounts (fuel : nat) (n : Z).

Definition runUse (u : CacheUse) : M World unit :=
  match u with
  | Lookup i => _ <- _addressFromIndex i ;; ret tt
  | AddAccounts fuel n => _ <- addAccounts fuel n ;; ret tt
  end.

(** The world after a sequence of uses, whatever the outcome of each (a
    caller may catch an exception and go on). *)
Definition afterUses (us : list CacheUse) (w : World) : World :=
  fold_left (fun w0 u => exec (runUse u) w0) us w.

(** Since the calls [base], every index was derived at most once, and only
    indices that are now cached. *)
Definition derived_once (base : list Z) (w : World) : Prop :=
  exists new,
    deriveChild_calls w = new ++ base /\
    NoDup new /\
    forall i, i ∈ new -> is_Some (_index2wallet (self w) !! i).

(** The indices [deriveChild] of hdkey takes: it writes the index as an
    unsigned integer of 32 bits, and throws on any other. *)
Definition maxIndex : Z := 4294967295.

Definition validIndex (i : Z) : Prop := 0 <= i <= maxIndex.

(** The turns the loop of a use is given. *)
Definition turnsOf (u : CacheUse) : nat :=
  match u with
  | Lookup _ => 0
  | AddAccounts fuel _ => fuel
  end.

(** Uses that stay within these indices: an index looked up is one of them,
    and the registry, whose length [addAccounts] starts at and which grows
    by at most one account a turn, does not reach the last of them. *)
Definition usesInRange (w : World) (us : list CacheUse) : Prop :=
  Forall (fun u => match u with
                   | Lookup i => validIndex i
                   | AddAccounts _ _ => True
                   end) us /\
  Z.of_nat (length (wallets (self w))) + Z.of_nat (sum_list (map turnsOf us))
    <= maxIndex.

(** Since the calls [base], only indices that [deriveChild] takes were
    derived. *)
Definition derived_in_range (base : list Z) (w : World) : Prop :=
  exists new, deriveChild_calls w = new ++ base /\ Forall validIndex new.

(** Paths in the usual notation: m, then any number of parts, each a slash,
    one to nine digits and possibly a quote (a hardened index).  [derive]
    of hdkey takes them: it splits the path at the slashes, and throws when
    the first part does not begin with m or M or when another part does not
    begin with a number below 2^31. *)
Inductive PathState :=
| AfterM
| AfterSlash
| InNumber (digits : nat)
| AfterQuote.

Definition isDigit (c : ascii) : bool :=
  (48 <=? nat_of_ascii c)%nat && (nat_of_ascii c <=? 57)%nat.

Fixpoint pathParts (st : PathState) (s : string) : bool :=
  match s with
  | EmptyString =>
      match st with
      | AfterSlash => false
      | _ => true
      end
  | String c rest =>
      if Ascii.eqb c "/" then
        match st with
        | AfterSlash => false
        | _ => pathParts AfterSlash rest
        end
      else if Ascii.eqb c "'" then
        match st with
        | InNumber _ => pathParts AfterQuote rest
        | _ => false
        end
      else if isDigit c then
        match st with
        | AfterSlash => pathParts (InNumber 1) rest
        | InNumber d =>
            if (d <? 9)%nat then pathParts (InNumber (S d)) rest else false
        | _ => false
        end
      else false
  end.

Definition wellFormedPath (p : string) : bool :=
  match p with
  | String c rest => Ascii.eqb c "m" && pathParts AfterM rest
  | EmptyString => false
  end.

(** The account whose key [signMessage] signs with: the first statement of
    its body, lines 134-138. *)
Definition signingAccount (address : string) : M World ECPair :=
  x <- this ;;
  _getPrivateKeyFor
    match find (fun f => String.eqb (getAddress x (ec_publicKey f)) address)
            (wallets x) with
    | Some f => toHex (ec_publicKey f)
    | None => EmptyString
    end.

(** The root a seed gives on the default path, and the instance the static
    [fromSeed] returns for it. *)
Definition defaultRoot (s : Bytes) : HDNode :=
  derive (fromMasterSeed s) hdPathString.

Definition seeded (s : Bytes) : HDPrivateKey :=
  mkHDPrivateKey defaultAddressType 0 (hd_privateKey (defaultRoot s))
    (hd_publicKey (defaultRoot s)) [] (Some s) ∅ (Some (fromMasterSeed s))
    (Some (defaultRoot s)) hdPathString.

(** Whether a public key, in hexadecimal, is that of a registered account. *)
Definition registered (x : HDPrivateKey) (pk : string) : bool :=
  existsb (fun f => String.eqb (toHex (ec_publicKey f)) pk) (wallets x).


(** The accounts of the instance a call returns ([[]] when it returns none). *)
Definition accountsOf (r : outcome HDPrivateKey) : list string :=
  match r with
  | Return y => getAccounts y
  | _ => []
  end.

End Vocabulary.

(** ** Two instances of the primitives, to run the model on

    Stand-ins for the libraries, small enough to evaluate: a key is grown
    from the seed by prefixing a byte for what it is derived with, the
    length of a path or an index, so the paths and indices used below give
    different keys. *)

Definition byteOfZ (i : Z) : byte :=
  default Byte.x00 (Byte.of_N (Z.to_N (i mod 256))).

Definition toy_addressOf (t : option nat) (pk : Bytes) : string :=
  match t with
  | None => String "U" (toHex pk)
  | Some O => String "P" (toHex pk)
  | Some (S _) => String "Q" (toHex pk)
  end.

Definition toy_publicOf (d : Bytes) : Bytes := Byte.x02 :: d.

(** A path is told from another by its length. *)
Definition toy_pathByte (path : string) : byte :=
  byteOfZ (Z.of_nat (String.length path)).

Definition toy_node (d : Bytes) : HDNode := mkHDNode d (toy_publicOf d) [].

Definition toy_sign (text privHex : string) : string :=
  privHex +:+ String ":" text.

(** A signature is good for an address when it was made with the private
    key the address encodes (after the tag and the 02 of the public key). *)
Definition toy_verify (text address sig : string) : bool :=
  String.eqb sig
    (toy_sign text (substring 3 (String.length address - 3) address)).

Definition toy_accepts (psbt : Psbt) (c : PsbtCall) : bool :=
  match c with
  | SignInput i _ _ => (0 <=? i)%Z
  | FinalizeAllInputs => true
  end.

Definition toyPrims : Primitives := {|
  AddressType := nat;
  defaultAddressType := None;
  addressOf := toy_addressOf;
  ZERO_KEY := repeat Byte.x00 33;
  ZERO_PRIVKEY := repeat Byte.x00 32;
  fromMasterSeed := toy_node;
  derive := fun h path => toy_node (toy_pathByte path :: hd_privateKey h);
  deriveChild := fun h i => toy_node (byteOfZ i :: hd_privateKey h);
  pointFromScalar := toy_publicOf;
  mnemonicToSeed := fun m p => list_byte_of_string (m +:+ p);
  message_sign := toy_sign;
  message_verify := toy_verify;
  psbt_accepts := toy_accepts
|}.

(** The same, except that every index derives the same child key: the
    collision the registry's check is said to guard against. *)
Definition collidingPrims : Primitives := {|
  AddressType := nat;
  defaultAddressType := None;
  addressOf := toy_addressOf;
  ZERO_KEY := repeat Byte.x00 33;
  ZERO_PRIVKEY := repeat Byte.x00 32;
  fromMasterSeed := toy_node;
  derive := fun h path => toy_node (toy_pathByte path :: hd_privateKey h);
  deriveChild := fun h _ => toy_node (Byte.x07 :: hd_privateKey h);
  pointFromScalar := toy_publicOf;
  mnemonicToSeed := fun m p => list_byte_of_string (m +:+ p);
  message_sign := toy_sign;
  message_verify := toy_verify;
  psbt_accepts := toy_accepts
|}.

(** An instance initialised from the seed 01 02, and the same after
    [addAccounts(2)]. *)
Definition toySeed : Bytes := [Byte.x01; Byte.x02].

Definition toyWorld : @World toyPrims :=
  exec (@fromSeed toyPrims toySeed) (@newWorld toyPrims).

Definition toyWorld2 : @World toyPrims :=
  exec (@addAccounts toyPrims 4 2) toyWorld.

(** Two descriptors: the key of the first registered account, then a key
    that no account has. *)
Definition toyInputs : list ToSignInput :=
  [mkToSignInput 0 "02010d0102" None; mkToSignInput 1 "ff" None].

(** An instance that changed its path to m/1 and then added one account, and
    what [serialize] returns for it. *)
Definition toyWorldMoved : @World toyPrims :=
  exec (@changeHdPath toyPrims "m/1" ;;; @addAccounts toyPrims 4 1) toyWorld.

Definition toySerializedMoved : @SerializedHDKey toyPrims :=
  @mkSerializedHDKey toyPrims (Some 1) "0102" None.

(** An instance whose children all have the same key, after
    [addAccounts(2)]. *)
Definition collidingWorld2 : @World collidingPrims :=
  exec (@fromSeed collidingPrims [Byte.x01] ;;; @addAccounts collidingPrims 4 2)
    (@newWorld collidingPrims).

(** ** The rest of the keyring *)

Section KeyringRest.
Context `{Prims : Primitives}.

(** [ECPair.toWIF()]: the import format of a private key, a function of the
    key on the one network the keyring signs for. *)
Variable toWIF : Bytes -> string.

(** The argument of [signTypedData] and [JSON.stringify] on it. *)
Variable TypedData : Type.
Variable JSON_stringify : TypedData -> string.

(** [exportAccount], lines 112-115. *)
Definition exportAccount (address : string) : M World string :=
  account <- findAccount address ;;
  ret (toWIF (ec_privateKey account)).

(** [signTypedData], lines 52-54. *)
Definition signTypedData (address : string) (typedData : TypedData)
    : M World string :=
  signMessage address (JSON_stringify typedData).


(** The static [fromPrivateKey], lines 211-213. *)
Definition static_fromPrivateKey (key : Bytes) : M World unit :=
  construct ;;; fromPrivateKey key.


(** The worlds [addAccounts] can lead to from [w]: the registry has grown
    at its end, the cache has kept its entries, and nothing else of the
    instance has changed. *)
Definition grown_from (w w' : World) : Prop :=
  wallets (self w) `prefix_of` wallets (self w') /\
  (forall i entry,
     _index2wallet (self w) !! i = Some entry ->
     _index2wallet (self w') !! i = Some entry) /\
  same_identity (self w) (self w') /\
  jobs w' = jobs w.

End KeyringRest.

(** A stand-in for [toWIF]. *)
Definition toy_toWIF (d : Bytes) : string := String "W" (toHex d).


(** ** The hexadecimal codec *)

Lemma fromHex_byteToHex (b : byte) (rest : string) :
  fromHex (byteToHex b +:+ rest) =
  match fromHex rest with
  | Some bs => Some (b :: bs)
  | None => None
  end.
Proof. destruct b; reflexivity. Qed.

(** Decoding undoes encoding. *)
Lemma fromHex_toHex (bs : Bytes) : fromHex (toHex bs) = Some bs.
Proof.
  induction bs as [|b bs IH]; [reflexivity|].
  cbn [toHex]. rewrite fromHex_byteToHex, IH. reflexivity.
Qed.

Lemma toHex_inj (a b : Bytes) : toHex a = toHex b -> a = b.
Proof.
  intros E. apply (f_equal fromHex) in E.
  rewrite !fromHex_toHex in E. congruence.
Qed.

(** Only the empty byte string encodes to the empty string. *)
Lemma toHex_empty (bs : Bytes) : toHex bs = EmptyString <-> bs = [].
Proof.
  split; [|intros ->; reflexivity].
  destruct bs as [|b bs]; [reflexivity|].
  cbn [toHex]. unfold byteToHex. cbn. discriminate.
Qed.

Lemma eqb_toHex_empty (bs : Bytes) :
  bs <> [] -> String.eqb (toHex bs) EmptyString = false.
Proof.
  intros Hne. apply String.eqb_neq. intros E. apply Hne, toHex_empty, E.
Qed.

(** ** The cache and the registry *)

Section Registry.
Context `{Prims : Primitives}.

Lemma same_identity_refl x : same_identity x x.
Proof. repeat split. Qed.

Lemma same_identity_trans x y z :
  same_identity x y -> same_identity y z -> same_identity x z.
Proof. unfold same_identity. intuition congruence. Qed.

(** A cached index is answered from the cache; nothing changes. *)
Lemma addressFromIndex_hit (w : World) (i : Z) (entry : string * ECPair) :
  _index2wallet (self w) !! i = Some entry ->
  _addressFromIndex i w = (Return entry, w).
Proof.
  intros H. unfold _addressFromIndex, bind, this, gets. rewrite H. reflexivity.
Qed.

(** An index that is not cached is derived, once, and stored. *)
Lemma addressFromIndex_miss (w : World) (r : HDNode) (i : Z) :
  _index2wallet (self w) !! i = None ->
  root (self w) = Some r ->
  _addressFromIndex i w =
  (Return (childAddress (addressType (self w)) r i,
           mkECPair (next_oid w) (childKey r i)),
   afterMiss w r i).
Proof.
  intros Hc Hr. unfold _addressFromIndex, bind, this, gets.
  rewrite Hc, Hr. reflexivity.
Qed.

(** Without a root there is nothing to derive from. *)
Lemma addressFromIndex_no_root (w : World) (i : Z) :
  _index2wallet (self w) !! i = None ->
  root (self w) = None ->
  _addressFromIndex i w = (Throw TypeError, w).
Proof.
  intros Hc Hr. unfold _addressFromIndex, bind, this, gets.
  rewrite Hc, Hr. reflexivity.
Qed.

Lemma includes_true (ws : list ECPair) (e : ECPair) :
  e ∈ ws -> includes ws e = true.
Proof.
  intros Hin. apply existsb_exists. exists e. split.
  - by apply list_elem_of_In.
  - apply Nat.eqb_refl.
Qed.

Lemma includes_false (ws : list ECPair) (e : ECPair) (n : nat) :
  Forall (fun e' => (oid e' < n)%nat) ws -> oid e = n -> includes ws e = false.
Proof.
  intros Hall He. destruct (includes ws e) eqn:E; [|reflexivity].
  apply existsb_exists in E as (e' & Hin & Heq).
  apply Nat.eqb_eq in Heq. rewrite Forall_forall in Hall.
  apply list_elem_of_In, Hall in Hin. lia.
Qed.

(** One turn of the loop. *)
Lemma addAccounts_loop_step (fuel : nat) (count idx : Z) (acc : list string)
    (w : World) :
  count <> 0 ->
  addAccounts_loop (S fuel) count idx acc w =
  match _addressFromIndex idx w with
  | (Return entry, w') =>
      if includes (wallets (self w')) (snd entry)
      then addAccounts_loop fuel count (idx + 1) acc w'
      else addAccounts_loop fuel (count - 1) idx (acc ++ [fst entry])
             (on_self (set_wallets (wallets (self w') ++ [snd entry])) w')
  | (Throw e, w') => (Throw e, w')
  | (OutOfFuel, w') => (OutOfFuel, w')
  end.
Proof.
  intros Hc. cbn [addAccounts_loop].
  apply Z.eqb_neq in Hc. rewrite Hc.
  unfold bind at 1. destruct (_addressFromIndex idx w) as [[entry| |] w']; try reflexivity.
  unfold bind, this, gets. cbn.
  destruct (includes (wallets (self w')) (snd entry)); reflexivity.
Qed.

Lemma addAccounts_loop_done (fuel : nat) (idx : Z) (acc : list string) (w : World) :
  addAccounts_loop fuel 0 idx acc w = (Return acc, w).
Proof. destruct fuel; reflexivity. Qed.

(** Registering the pair of the next free index keeps the registry in order. *)
Lemma registry_ok_push (r : HDNode) (w : World) :
  registry_ok r w ->
  registry_ok r (afterPush w r (Z.of_nat (length (wallets (self w))) + 1)).
Proof.
  intros [Hroot Hkeys Hdom Hcached Hfresh Hnodup].
  set (L := length (wallets (self w))) in *.
  assert (HL : length (wallets (self w) ++ [mkECPair (next_oid w) (childKey r (Z.of_nat L + 1))])
               = S L) by (rewrite length_app; cbn; lia).
  split; cbn.
  - exact Hroot.
  - rewrite HL, map_app, Hkeys, seqZ_S, map_app. cbn.
    by replace (1 + Z.of_nat L) with (Z.of_nat L + 1) by lia.
  - intros i. rewrite HL. rewrite lookup_insert. case_decide as Hi.
    + split; [discriminate|]. intros Hn. exfalso. apply Hn. lia.
    + rewrite Hdom. fold L. split; intros Hn Hr; apply Hn; lia.
  - intros i a e. rewrite lookup_insert. case_decide as Hi.
    + intros [= <- <-]. subst i.
      replace (Z.to_nat (Z.of_nat L + 1 - 1)) with L by lia.
      rewrite lookup_app_r by (fold L; lia). fold L.
      by rewrite Nat.sub_diag.
    + intros Hc. rewrite lookup_app_l; [by eapply Hcached|].
      apply Hcached in Hc. by apply lookup_lt_Some in Hc.
  - apply Forall_app. split.
    + eapply Forall_impl; [exact Hfresh|]. cbn. intros; lia.
    + apply Forall_singleton. cbn. lia.
  - rewrite map_app. cbn. apply NoDup_app. split; [exact Hnodup|]. split.
    + intros o Ho [<-|[]]%list_elem_of_In.
      apply list_elem_of_In, in_map_iff in Ho as (e & He & Hin).
      rewrite Forall_forall in Hfresh.
      apply list_elem_of_In, Hfresh in Hin. lia.
    + apply NoDup_singleton.
Qed.

Lemma afterPush_length (r : HDNode) (w : World) (i : Z) :
  length (wallets (self (afterPush w r i))) = S (length (wallets (self w))).
Proof. cbn. rewrite length_app. cbn. lia. Qed.

Lemma afterPush_identity (r : HDNode) (w : World) (i : Z) :
  same_identity (self w) (self (afterPush w r i)).
Proof. repeat split. Qed.

(** The loop entered at the next free index with [k] accounts to add: it
    registers the pairs of the next [k] indices and returns their addresses,
    in [2 * k - 1] turns. *)
Lemma addAccounts_loop_fill (r : HDNode) (k : nat) :
  forall (fuel : nat) (acc : list string) (w : World),
  registry_ok r w ->
  (2 * k <= S fuel)%nat ->
  exists w',
    addAccounts_loop fuel (Z.of_nat k)
      (Z.of_nat (length (wallets (self w))) + 1) acc w =
    (Return (acc ++ map (childAddress (addressType (self w)) r)
                      (seqZ (Z.of_nat (length (wallets (self w))) + 1) (Z.of_nat k))),
     w') /\
    registry_ok r w' /\
    length (wallets (self w')) = (length (wallets (self w)) + k)%nat /\
    same_identity (self w) (self w') /\
    jobs w' = jobs w.
Proof.
  induction k as [|k IH]; intros fuel acc w Hok Hfuel.
  - exists w. rewrite addAccounts_loop_done. cbn. rewrite app_nil_r, Nat.add_0_r.
    auto using same_identity_refl.
  - destruct fuel as [|fuel]; [lia|].
    set (L := length (wallets (self w))) in *.
    assert (Hmiss : _index2wallet (self w) !! (Z.of_nat L + 1) = None).
    { apply (ok_dom r w Hok). fold L. lia. }
    rewrite addAccounts_loop_step by lia.
    rewrite (addressFromIndex_miss w r _ Hmiss (ok_root r w Hok)).
    cbn [snd fst].
    rewrite (includes_false _ _ (next_oid w)) by (reflexivity || apply Hok).
    change (on_self _ (afterMiss w r (Z.of_nat L + 1)))
      with (afterPush w r (Z.of_nat L + 1)).
    pose proof (registry_ok_push r w Hok) as Hok1. fold L in Hok1.
    pose proof (afterPush_length r w (Z.of_nat L + 1)) as HL1. fold L in HL1.
    set (w1 := afterPush w r (Z.of_nat L + 1)) in *.
    replace (Z.of_nat (S k) - 1) with (Z.of_nat k) by lia.
    assert (Hlist : forall t,
      map (childAddress t r) (seqZ (Z.of_nat L + 1) (Z.of_nat (S k))) =
      childAddress t r (Z.of_nat L + 1) ::
      map (childAddress t r) (seqZ (Z.of_nat (S L) + 1) (Z.of_nat k))).
    { intros t. rewrite seqZ_cons by lia. cbn [map]. do 3 f_equal; lia. }
    destruct k as [|k].
    + exists w1. rewrite addAccounts_loop_done, Hlist.
      rewrite (seqZ_nil _ (Z.of_nat 0)) by lia. cbn [map].
      split; [reflexivity|]. split; [exact Hok1|]. split; [rewrite HL1; lia|].
      split; [apply afterPush_identity|reflexivity].
    + destruct fuel as [|fuel]; [lia|].
      rewrite addAccounts_loop_step by lia.
      assert (Hhit : _index2wallet (self w1) !! (Z.of_nat L + 1) =
                     Some (childAddress (addressType (self w)) r (Z.of_nat L + 1),
                           mkECPair (next_oid w) (childKey r (Z.of_nat L + 1)))).
      { cbn. apply lookup_insert_eq. }
      rewrite (addressFromIndex_hit w1 _ _ Hhit). cbn [snd fst].
      rewrite includes_true.
      2:{ eapply list_elem_of_lookup_2, (ok_cached r w1 Hok1), Hhit. }
      destruct (IH fuel (acc ++ [childAddress (addressType (self w)) r (Z.of_nat L + 1)])
                  w1 Hok1 ltac:(lia)) as (w' & Hrun & Hok' & Hlen & Hid & Hjobs).
      rewrite HL1 in Hrun.
      replace (Z.of_nat L + 1 + 1) with (Z.of_nat (S L) + 1) by lia.
      exists w'. rewrite Hrun, Hlist, <- app_assoc. cbn [app].
      split; [reflexivity|]. split; [exact Hok'|].
      split; [rewrite Hlen, HL1; lia|].
      split; [|exact Hjobs].
      eapply same_identity_trans; [apply (afterPush_identity r w)|exact Hid].
Qed.

(** [addAccounts] on a registry in order: it registers the pairs of the next
    [n] indices and returns their addresses. *)
Lemma addAccounts_spec (r : HDNode) (w : World) (n : Z) (fuel : nat) :
  registry_ok r w ->
  0 <= n ->
  2 * n <= Z.of_nat fuel ->
  exists w',
    addAccounts fuel n w =
    (Return (map (childAddress (addressType (self w)) r)
               (seqZ (Z.of_nat (length (wallets (self w))) + 1) n)),
     w') /\
    registry_ok r w' /\
    length (wallets (self w')) = (length (wallets (self w)) + Z.to_nat n)%nat /\
    same_identity (self w) (self w') /\
    jobs w' = jobs w.
Proof.
  intros Hok Hn Hfuel. unfold addAccounts, bind, this, gets.
  set (L := length (wallets (self w))) in *.
  destruct (Nat.eqb_spec L 0) as [H0|H0].
  - destruct (addAccounts_loop_fill r (Z.to_nat n) fuel [] w Hok ltac:(lia))
      as (w' & Hrun & Hrest).
    fold L in Hrun, Hrest. rewrite H0, Z2Nat.id in Hrun by lia.
    rewrite H0 in Hrest.
    exists w'. rewrite H0. split; [exact Hrun|exact Hrest].
  - destruct (Z.eq_dec n 0) as [->|Hn0].
    + exists w. rewrite addAccounts_loop_done, seqZ_nil by lia.
      rewrite Nat.add_0_r. auto using same_identity_refl.
    + destruct fuel as [|fuel]; [lia|].
      rewrite addAccounts_loop_step by lia.
      destruct (_index2wallet (self w) !! Z.of_nat L) as [[a e]|] eqn:Hhit.
      2:{ apply (ok_dom r w Hok) in Hhit. fold L in Hhit. lia. }
      rewrite (addressFromIndex_hit w _ _ Hhit). cbn [snd fst].
      rewrite includes_true.
      2:{ eapply list_elem_of_lookup_2, (ok_cached r w Hok), Hhit. }
      destruct (addAccounts_loop_fill r (Z.to_nat n) fuel [] w Hok ltac:(lia))
        as (w' & Hrun & Hrest).
      fold L in Hrun. rewrite Z2Nat.id in Hrun by lia.
      exists w'. split; [exact Hrun|exact Hrest].
Qed.

(** An empty registry with an empty cache is in order. *)
Lemma registry_ok_fresh (r : HDNode) (w : World) :
  root (self w) = Some r ->
  wallets (self w) = [] ->
  _index2wallet (self w) = ∅ ->
  registry_ok r w.
Proof.
  intros Hr Hw Hc. split; rewrite ?Hw, ?Hc; cbn.
  - exact Hr.
  - reflexivity.
  - intros i. rewrite lookup_empty. split; [lia|reflexivity].
  - intros i a e. rewrite lookup_empty. discriminate.
  - constructor.
  - constructor.
Qed.

(** The accounts of a registry in order: the root address, then the
    addresses of the children 1 to its length. *)
Lemma getAccounts_registry (r : HDNode) (w : World) :
  registry_ok r w ->
  getAccounts (self w) =
  getAddress (self w) (publicKey (self w)) ::
  map (childAddress (addressType (self w)) r)
    (seqZ 1 (Z.of_nat (length (wallets (self w))))).
Proof.
  intros Hok. unfold getAccounts. f_equal.
  transitivity (map (fun d => addressOf (addressType (self w)) (pointFromScalar d))
                  (map ec_privateKey (wallets (self w)))).
  - rewrite map_map. reflexivity.
  - rewrite (ok_keys r w Hok), map_map. reflexivity.
Qed.

(** C1. On an instance initialised from a seed whose registry (and cache) is
    empty, [addAccounts n] with [n >= 1] returns the [n] addresses of the
    child indices 1..n in order; a following [addAccounts m] with [m >= 1]
    returns the [m] addresses of the indices n+1..n+m; [getAccounts] is the
    root address followed by the addresses returned so far, so its length
    grows by exactly [m]; and when no two of the indices 1..n+m derive the
    same address, the addresses returned are pairwise distinct. *)
Theorem addAccounts_monotone (w : World) (r : HDNode) (n m : Z)
    (fuel1 fuel2 : nat) :
  root (self w) = Some r ->
  wallets (self w) = [] ->
  _index2wallet (self w) = ∅ ->
  1 <= n -> 1 <= m ->
  2 * n <= Z.of_nat fuel1 -> 2 * m <= Z.of_nat fuel2 ->
  let addr := childAddress (addressType (self w)) r in
  let first := map addr (seqZ 1 n) in
  let second := map addr (seqZ (n + 1) m) in
  exists w1 w2,
    addAccounts fuel1 n w = (Return first, w1) /\
    addAccounts fuel2 m w1 = (Return second, w2) /\
    Z.of_nat (length first) = n /\
    Z.of_nat (length second) = m /\
    getAccounts (self w1) = getAccounts (self w) ++ first /\
    getAccounts (self w2) = getAccounts (self w1) ++ second /\
    Z.of_nat (length (getAccounts (self w2))) =
      Z.of_nat (length (getAccounts (self w1))) + m /\
    ((forall i j, 1 <= i <= n + m -> 1 <= j <= n + m -> addr i = addr j -> i = j) ->
     NoDup (first ++ second)).
Proof.
  intros Hr Hw Hc Hn Hm Hf1 Hf2 addr first second.
  pose proof (registry_ok_fresh r w Hr Hw Hc) as Hok.
  destruct (addAccounts_spec r w n fuel1 Hok ltac:(lia) Hf1)
    as (w1 & Hrun1 & Hok1 & Hlen1 & Hid1 & _).
  destruct (addAccounts_spec r w1 m fuel2 Hok1 ltac:(lia) Hf2)
    as (w2 & Hrun2 & Hok2 & Hlen2 & Hid2 & _).
  rewrite Hw in Hrun1, Hlen1. cbn [length] in Hrun1, Hlen1.
  rewrite Hlen1 in Hrun2, Hlen2.
  destruct Hid1 as (Ht1 & _ & _ & Hpk1 & _).
  destruct Hid2 as (Ht2 & _ & _ & Hpk2 & _).
  rewrite Ht1 in Hrun2.
  replace (Z.of_nat (0 + Z.to_nat n) + 1) with (n + 1) in Hrun2 by lia.
  assert (Hacc1 : getAccounts (self w1) = getAccounts (self w) ++ first).
  { rewrite (getAccounts_registry r w1 Hok1), (getAccounts_registry r w Hok).
    rewrite Hw, Hlen1. cbn [length app]. unfold getAddress.
    rewrite Ht1, Hpk1. rewrite (seqZ_nil 1 (Z.of_nat 0)) by lia. cbn [map app].
    unfold first. by replace (Z.of_nat (0 + Z.to_nat n)) with n by lia. }
  assert (Hacc2 : getAccounts (self w2) = getAccounts (self w1) ++ second).
  { rewrite (getAccounts_registry r w2 Hok2), (getAccounts_registry r w1 Hok1).
    rewrite Hlen2, Hlen1. unfold getAddress. rewrite Ht2, Hpk2, Ht1.
    cbn [app]. f_equal. unfold second. fold addr.
    replace (Z.of_nat (0 + Z.to_nat n + Z.to_nat m)) with (n + m) by lia.
    replace (Z.of_nat (0 + Z.to_nat n)) with n by lia.
    rewrite seqZ_app, map_app by lia.
    by replace (1 + n) with (n + 1) by lia. }
  exists w1, w2.
  split; [exact Hrun1|]. split; [exact Hrun2|].
  split; [unfold first; rewrite length_map, length_seqZ; lia|].
  split; [unfold second; rewrite length_map, length_seqZ; lia|].
  split; [exact Hacc1|]. split; [exact Hacc2|].
  split.
  - rewrite Hacc2, length_app. unfold second.
    rewrite length_map, length_seqZ. lia.
  - intros Hinj. unfold first, second. rewrite <- map_app.
    replace (n + 1) with (1 + n) by lia. rewrite <- seqZ_app by lia.
    apply (NoDup_fmap_2_strong addr); [|apply NoDup_seqZ].
    intros i j Hi Hj. apply elem_of_seqZ in Hi, Hj. apply Hinj; lia.
Qed.

Lemma addAccountsMany_spec (r : HDNode) (fuel : nat) (ns : list Z) :
  forall w : World,
  registry_ok r w ->
  Forall (fun n => 0 <= n /\ 2 * n <= Z.of_nat fuel) ns ->
  exists w',
    addAccountsMany fuel ns w = (Return tt, w') /\
    registry_ok r w' /\
    Z.of_nat (length (wallets (self w'))) =
      Z.of_nat (length (wallets (self w))) + total ns /\
    same_identity (self w) (self w').
Proof.
  induction ns as [|n ns IH]; intros w Hok Hns.
  - exists w. cbn. split; [reflexivity|]. split; [exact Hok|].
    split; [lia|apply same_identity_refl].
  - apply Forall_cons in Hns as [[Hn Hf] Hns].
    destruct (addAccounts_spec r w n fuel Hok Hn Hf)
      as (w1 & Hrun1 & Hok1 & Hlen1 & Hid1 & _).
    destruct (IH w1 Hok1 Hns) as (w' & Hrun & Hok' & Hlen & Hid).
    exists w'. split.
    + unfold addAccountsMany in *. cbn [forEach]. unfold bind at 1 2.
      rewrite Hrun1. cbn. exact Hrun.
    + split; [exact Hok'|]. split.
      * rewrite Hlen, Hlen1. cbn [total fold_right]. fold (total ns). lia.
      * eapply same_identity_trans; eassumption.
Qed.

(** C6, as the code has it.  The check of [addAccounts] is on the identity of
    the cached object: an index whose cached pair is already in the registry
    is skipped and the next index tried.  So, whatever the sequence of
    [addAccounts] calls on an instance initialised from a seed, every call
    returns, no object is registered twice, and the registry holds the pairs
    of the indices 1 to the total requested, one for each index (whether or
    not two of them derive the same key). *)
Theorem registry_without_repeated_object (w : World) (r : HDNode)
    (fuel : nat) (ns : list Z) :
  root (self w) = Some r ->
  wallets (self w) = [] ->
  _index2wallet (self w) = ∅ ->
  Forall (fun n => 0 <= n /\ 2 * n <= Z.of_nat fuel) ns ->
  (forall f count idx acc w0 entry w1,
     count <> 0 ->
     _addressFromIndex idx w0 = (Return entry, w1) ->
     includes (wallets (self w1)) (snd entry) = true ->
     addAccounts_loop (S f) count idx acc w0 =
     addAccounts_loop f count (idx + 1) acc w1) /\
  exists w',
    addAccountsMany fuel ns w = (Return tt, w') /\
    NoDup (map oid (wallets (self w'))) /\
    map ec_privateKey (wallets (self w')) = map (childKey r) (seqZ 1 (total ns)).
Proof.
  intros Hr Hw Hc Hns. split.
  - intros f count idx acc w0 entry w1 Hcount Hlook Hinc.
    rewrite addAccounts_loop_step, Hlook, Hinc by assumption. reflexivity.
  - pose proof (registry_ok_fresh r w Hr Hw Hc) as Hok.
    destruct (addAccountsMany_spec r fuel ns w Hok Hns)
      as (w' & Hrun & Hok' & Hlen & _).
    exists w'. split; [exact Hrun|]. split; [apply Hok'|].
    rewrite (ok_keys r w' Hok'), Hlen, Hw. cbn [length].
    by replace (Z.of_nat 0 + total ns) with (total ns) by lia.
Qed.

(** *** The cache derives an index at most once *)

Lemma derived_once_lookup (base : list Z) (i : Z) (w : World) :
  derived_once base w -> derived_once base (exec (_addressFromIndex i) w).
Proof.
  intros (new & Hcalls & Hnd & Hin). unfold exec.
  destruct (_index2wallet (self w) !! i) as [entry|] eqn:Hc.
  - rewrite (addressFromIndex_hit w i entry Hc). exists new. auto.
  - destruct (root (self w)) as [r|] eqn:Hr.
    + rewrite (addressFromIndex_miss w r i Hc Hr). cbn [snd].
      exists (i :: new). cbn. split; [by rewrite Hcalls|]. split.
      * apply NoDup_cons. split; [|exact Hnd].
        intros Hi. apply Hin in Hi. rewrite Hc in Hi. by destruct Hi.
      * intros j Hj. rewrite lookup_insert. case_decide; [by eexists|].
        apply Hin. apply elem_of_cons in Hj as [->|Hj]; [congruence|exact Hj].
    + rewrite (addressFromIndex_no_root w i Hc Hr). exists new. auto.
Qed.

Lemma derived_once_push (base : list Z) (ws : list ECPair) (w : World) :
  derived_once base w -> derived_once base (on_self (set_wallets ws) w).
Proof. intros (new & ? & ? & ?). exists new. auto. Qed.

(** Whatever a lookup and a registration keep, every use of the cache
    keeps. *)
Section UsesPreserve.
Variable P : World -> Prop.
Hypothesis P_lookup : forall i w, P w -> P (exec (_addressFromIndex i) w).
Hypothesis P_push : forall ws w, P w -> P (on_self (set_wallets ws) w).

Lemma loop_preserves (fuel : nat) :
  forall count idx acc w,
  P w -> P (exec (addAccounts_loop fuel count idx acc) w).
Proof.
  induction fuel as [|fuel IH]; intros count idx acc w Hw.
  - unfold exec. cbn. destruct (count =? 0); exact Hw.
  - destruct (Z.eq_dec count 0) as [->|Hc].
    + unfold exec. rewrite addAccounts_loop_done. exact Hw.
    + unfold exec. rewrite addAccounts_loop_step by exact Hc.
      pose proof (P_lookup idx w Hw) as Hw1. unfold exec in Hw1.
      destruct (_addressFromIndex idx w) as [[entry| |] w1]; cbn [snd] in *;
        try exact Hw1.
      destruct (includes (wallets (self w1)) (snd entry)).
      * apply IH, Hw1.
      * apply IH, P_push, Hw1.
Qed.

Lemma use_preserves (u : CacheUse) (w : World) :
  P w -> P (exec (runUse u) w).
Proof.
  intros Hw. destruct u as [i|fuel n]; unfold exec, runUse, bind.
  - pose proof (P_lookup i w Hw) as H. unfold exec in H.
    destruct (_addressFromIndex i w) as [[?| |] ?]; exact H.
  - pose proof (loop_preserves fuel n
      (if Nat.eqb (length (wallets (self w))) 0 then 1
       else Z.of_nat (length (wallets (self w)))) [] w Hw) as H.
    unfold exec in H. unfold addAccounts, bind, this, gets.
    destruct (addAccounts_loop _ _ _ _ w) as [[?| |] ?]; exact H.
Qed.

Lemma uses_preserve (us : list CacheUse) :
  forall w, P w -> P (afterUses us w).
Proof.
  induction us as [|u us IH]; intros w Hw; [exact Hw|].
  cbn. apply IH, use_preserves, Hw.
Qed.

End UsesPreserve.

Lemma derived_once_uses (base : list Z) (us : list CacheUse) (w : World) :
  derived_once base w -> derived_once base (afterUses us w).
Proof.
  apply uses_preserve.
  - apply derived_once_lookup.
  - apply derived_once_push.
Qed.

(** An entry of the cache stays what it is. *)
Lemma cached_entry_lookup (i : Z) (entry : string * ECPair) (j : Z) (w : World) :
  _index2wallet (self w) !! i = Some entry ->
  _index2wallet (self (exec (_addressFromIndex j) w)) !! i = Some entry.
Proof.
  intros Hi. unfold exec.
  destruct (_index2wallet (self w) !! j) as [e|] eqn:Hc.
  - by rewrite (addressFromIndex_hit w j e Hc).
  - destruct (root (self w)) as [r|] eqn:Hr.
    + rewrite (addressFromIndex_miss w r j Hc Hr). cbn.
      rewrite lookup_insert_ne; [exact Hi|congruence].
    + by rewrite (addressFromIndex_no_root w j Hc Hr).
Qed.

Lemma cached_entry_uses (i : Z) (entry : string * ECPair) (us : list CacheUse)
    (w : World) :
  _index2wallet (self w) !! i = Some entry ->
  _index2wallet (self (afterUses us w)) !! i = Some entry.
Proof.
  apply (uses_preserve (fun w0 => _index2wallet (self w0) !! i = Some entry)).
  - intros j w0. apply cached_entry_lookup.
  - intros ws w0 H. exact H.
Qed.

(** A lookup that returned has its entry in the cache. *)
Lemma addressFromIndex_cached (w0 w1 : World) (i : Z) (entry : string * ECPair) :
  _addressFromIndex i w0 = (Return entry, w1) ->
  _index2wallet (self w1) !! i = Some entry.
Proof.
  intros Hlook.
  destruct (_index2wallet (self w0) !! i) as [e0|] eqn:Hc0.
  - rewrite (addressFromIndex_hit w0 i e0 Hc0) in Hlook.
    by injection Hlook as <- <-.
  - destruct (root (self w0)) as [r|] eqn:Hr.
    + rewrite (addressFromIndex_miss w0 r i Hc0 Hr) in Hlook.
      injection Hlook as <- <-. cbn. apply lookup_insert_eq.
    + rewrite (addressFromIndex_no_root w0 i Hc0 Hr) in Hlook. discriminate.
Qed.

(** A lookup leaves the registry alone, and calls [deriveChild] for its own
    index or not at all. *)
Lemma addressFromIndex_effect (w : World) (i : Z) :
  wallets (self (exec (_addressFromIndex i) w)) = wallets (self w) /\
  (deriveChild_calls (exec (_addressFromIndex i) w) = deriveChild_calls w \/
   deriveChild_calls (exec (_addressFromIndex i) w) = i :: deriveChild_calls w).
Proof.
  unfold exec.
  destruct (_index2wallet (self w) !! i) as [entry|] eqn:Hc.
  - rewrite (addressFromIndex_hit w i entry Hc). auto.
  - destruct (root (self w)) as [r|] eqn:Hr.
    + rewrite (addressFromIndex_miss w r i Hc Hr). cbn. auto.
    + rewrite (addressFromIndex_no_root w i Hc Hr). auto.
Qed.

Lemma derived_in_range_lookup (base : list Z) (i : Z) (w : World) :
  validIndex i ->
  derived_in_range base w ->
  derived_in_range base (exec (_addressFromIndex i) w).
Proof.
  intros Hi (new & Hcalls & Hall).
  destruct (addressFromIndex_effect w i) as [_ [H|H]]; unfold derived_in_range;
    rewrite H, Hcalls.
  - exists new. auto.
  - exists (i :: new). split; [reflexivity|]. by constructor.
Qed.

(** The loop entered at [idx] looks up no index beyond [idx] and its turns,
    and registers at most one account a turn. *)
Lemma loop_in_range (base : list Z) (fuel : nat) :
  forall count idx acc w,
  derived_in_range base w ->
  0 <= idx ->
  idx + Z.of_nat fuel <= maxIndex + 1 ->
  derived_in_range base (exec (addAccounts_loop fuel count idx acc) w) /\
  (length (wallets (self (exec (addAccounts_loop fuel count idx acc) w))) <=
   length (wallets (self w)) + fuel)%nat.
Proof.
  induction fuel as [|fuel IH]; intros count idx acc w Hw Hidx Hmax.
  - unfold exec. cbn. destruct (count =? 0); cbn; split; [exact Hw|lia|exact Hw|lia].
  - destruct (Z.eq_dec count 0) as [->|Hc].
    + unfold exec. rewrite addAccounts_loop_done. cbn. split; [exact Hw|lia].
    + unfold exec. rewrite addAccounts_loop_step by exact Hc.
      assert (Hv : validIndex idx) by (unfold validIndex; lia).
      pose proof (derived_in_range_lookup base idx w Hv Hw) as Hw1.
      destruct (addressFromIndex_effect w idx) as [Hlen _].
      unfold exec in Hw1, Hlen.
      destruct (_addressFromIndex idx w) as [[entry| |] w1]; cbn [snd] in *;
        try (split; [exact Hw1|rewrite Hlen; lia]).
      destruct (includes (wallets (self w1)) (snd entry)).
      * destruct (IH count (idx + 1) acc w1 Hw1) as [H1 H2]; [lia|lia|].
        unfold exec in H1, H2. split; [exact H1|]. rewrite Hlen in H2. lia.
      * set (w2 := on_self _ w1).
        assert (Hw2 : derived_in_range base w2) by exact Hw1.
        destruct (IH (count - 1) idx (acc ++ [fst entry]) w2 Hw2) as [H1 H2]; [lia|lia|].
        unfold exec in H1, H2. split; [exact H1|].
        assert (length (wallets (self w2)) = S (length (wallets (self w)))) as Hl2.
        { subst w2. cbn. rewrite length_app, Hlen. cbn. lia. }
        rewrite Hl2 in H2. lia.
Qed.

Lemma use_in_range (base : list Z) (u : CacheUse) (w : World) :
  derived_in_range base w ->
  usesInRange w [u] ->
  derived_in_range base (exec (runUse u) w) /\
  (length (wallets (self (exec (runUse u) w))) <=
   length (wallets (self w)) + turnsOf u)%nat.
Proof.
  intros Hw [Hall Hsum]. apply Forall_cons in Hall as [Hu _].
  cbn in Hsum.
  destruct u as [i|fuel n]; unfold exec, runUse, bind.
  - pose proof (derived_in_range_lookup base i w Hu Hw) as H.
    destruct (addressFromIndex_effect w i) as [Hlen _].
    unfold exec in H, Hlen.
    destruct (_addressFromIndex i w) as [[?| |] ?]; unfold ret; cbn [snd] in *;
      (split; [exact H|rewrite Hlen; lia]).
  - cbn [turnsOf] in *.
    pose proof (loop_in_range base fuel n
      (if Nat.eqb (length (wallets (self w))) 0 then 1
       else Z.of_nat (length (wallets (self w)))) [] w Hw) as H.
    unfold exec in H. unfold addAccounts, bind, this, gets.
    destruct H as [H1 H2].
    { destruct (Nat.eqb _ 0); lia. }
    { destruct (Nat.eqb_spec (length (wallets (self w))) 0) as [E|E]; lia. }
    destruct (addAccounts_loop _ _ _ _ w) as [[?| |] ?]; unfold ret; cbn [snd] in *;
      (split; [exact H1|exact H2]).
Qed.

Lemma uses_in_range (base : list Z) (us : list CacheUse) :
  forall w,
  derived_in_range base w ->
  usesInRange w us ->
  derived_in_range base (afterUses us w).
Proof.
  induction us as [|u us IH]; intros w Hw [Hall Hsum]; [exact Hw|].
  apply Forall_cons in Hall as [Hu Hall]. cbn in Hsum.
  destruct (use_in_range base u w Hw) as [H1 H2].
  { split; [by apply Forall_singleton|cbn; lia]. }
  cbn. apply IH; [exact H1|]. split; [exact Hall|].
  change (fold_left _ [] w) with w. lia.
Qed.

(** [changeHdPath] derives the new root and empties cache and registry; it
    assigns neither [publicKey] nor [privateKey]. *)
Lemma changeHdPath_world (w : World) (newPath : string) :
  changeHdPath newPath w =
  (Return tt,
   on_self (fun x =>
     set_wallets [] (set_index2wallet ∅
       (set_root (option_map (fun h => derive h newPath) (hdWallet x))
          (set_hdPath newPath x)))) w).
Proof. reflexivity. Qed.

(** C8. From the moment the cache is empty (a new instance, or the path just
    changed), whatever lookups and [addAccounts] calls follow within the
    indices [deriveChild] takes, [deriveChild] is called at most once for
    each index, and for such indices only.  A lookup of an index that is not
    cached calls [deriveChild] once, for this index, stores the address and
    the new key pair of the child under the index and returns them; once a
    lookup of an index has returned an entry, every later lookup of that
    index, whatever uses of the cache come between, returns the same entry
    and leaves the world as it is (no further derivation).  [changeHdPath],
    on a path [derive] takes, empties the cache, whatever it held: the next
    lookup of an index derives it again, from the root of the new path. *)
Theorem cache_derives_each_index_once (w : World) (us : list CacheUse) :
  _index2wallet (self w) = ∅ ->
  usesInRange w us ->
  (exists new,
     deriveChild_calls (afterUses us w) = new ++ deriveChild_calls w /\
     NoDup new /\
     Forall validIndex new) /\
  (forall w0 i r,
     validIndex i ->
     _index2wallet (self w0) !! i = None ->
     root (self w0) = Some r ->
     exists entry w1,
       _addressFromIndex i w0 = (Return entry, w1) /\
       entry = (childAddress (addressType (self w0)) r i,
                mkECPair (next_oid w0) (childKey r i)) /\
       deriveChild_calls w1 = i :: deriveChild_calls w0 /\
       _index2wallet (self w1) = <[i := entry]> (_index2wallet (self w0))) /\
  (forall w0 i entry w1 between,
     validIndex i ->
     _addressFromIndex i w0 = (Return entry, w1) ->
     usesInRange w1 between ->
     _addressFromIndex i (afterUses between w1) =
     (Return entry, afterUses between w1)) /\
  (forall w0 newPath h i,
     wellFormedPath newPath = true ->
     hdWallet (self w0) = Some h ->
     validIndex i ->
     exists w1 entry w2,
       changeHdPath newPath w0 = (Return tt, w1) /\
       _index2wallet (self w1) = ∅ /\
       _addressFromIndex i w1 = (Return entry, w2) /\
       ec_privateKey (snd entry) = childKey (derive h newPath) i /\
       deriveChild_calls w2 = i :: deriveChild_calls w0).
Proof.
  intros Hc Hus. split; [|split; [|split]].
  - assert (H0 : derived_once (deriveChild_calls w) w).
    { exists []. split; [reflexivity|]. split; [constructor|].
      intros i Hi. by apply elem_of_nil in Hi. }
    assert (H1 : derived_in_range (deriveChild_calls w) w).
    { exists []. split; [reflexivity|constructor]. }
    destruct (derived_once_uses _ us w H0) as (new & Hcalls & Hnd & _).
    destruct (uses_in_range _ us w H1 Hus) as (new' & Hcalls' & Hall).
    exists new. split; [exact Hcalls|]. split; [exact Hnd|].
    rewrite Hcalls in Hcalls'. apply app_inv_tail in Hcalls'. by subst new'.
  - intros w0 i r _ Hmiss Hr. eexists _, _.
    split; [apply (addressFromIndex_miss w0 r i Hmiss Hr)|].
    split; [reflexivity|]. split; reflexivity.
  - intros w0 i entry w1 between _ Hlook _.
    apply addressFromIndex_hit, cached_entry_uses.
    eapply addressFromIndex_cached, Hlook.
  - intros w0 newPath h i _ Hh _.
    rewrite changeHdPath_world. set (w1 := on_self _ w0).
    assert (Hr : root (self w1) = Some (derive h newPath)).
    { subst w1. cbn. by rewrite Hh. }
    eexists w1, _, _. split; [reflexivity|]. split; [reflexivity|].
    split; [apply (addressFromIndex_miss w1 (derive h newPath) i);
            [reflexivity|exact Hr]|].
    split; reflexivity.
Qed.

(** *** The state codec *)

(** [serialize] on a root instance with a seed. *)
Lemma serialize_root (w : World) (s : Bytes) :
  childIndex (self w) = 0 ->
  seed (self w) = Some s ->
  serialize w =
  (Return (mkSerializedHDKey (Some (Z.of_nat (length (wallets (self w)))))
             (toHex s) (addressType (self w))),
   w).
Proof.
  intros H0 Hs. unfold serialize, bind, this, gets.
  rewrite H0, Hs. reflexivity.
Qed.

(** C7. On an instance whose [childIndex] is not 0, [serialize] throws its
    error, of the kind InvalidOperationError, and leaves the state as it
    was; on one whose [childIndex] is 0 and whose seed is set it returns the
    number of accounts, the seed in hexadecimal and the address type, and
    leaves the state as it was. *)
Theorem serialize_guard (w : World) :
  (childIndex (self w) <> 0 ->
   exists e, serialize w = (Throw e, w) /\ kindOf e = InvalidOperationError) /\
  (forall s,
   childIndex (self w) = 0 ->
   seed (self w) = Some s ->
   serialize w =
   (Return (mkSerializedHDKey (Some (Z.of_nat (length (wallets (self w)))))
              (toHex s) (addressType (self w))),
    w)).
Proof.
  split.
  - intros Hne. exists OnlyRootSerializes. split; [|reflexivity].
    unfold serialize, bind, this, gets.
    apply Z.eqb_neq in Hne. rewrite Hne. reflexivity.
  - intros s. apply serialize_root.
Qed.

(** After [changeHdPath], [getAccounts] is one address: that of the public
    key the instance had before the change. *)
Lemma changeHdPath_getAccounts (w : World) (newPath : string) :
  getAccounts (self (exec (changeHdPath newPath) w)) =
  [getAddress (self w) (publicKey (self w))].
Proof. reflexivity. Qed.

(** *** Construction from a phrase *)

(** C10. The static [fromPhrase] returns its new instance while the rest of
    [fromMnemonic] is still waiting for the seed: the instance returned has
    no seed and its [privateKey] and [publicKey] are the zero placeholders;
    the seed is set only when the waiting job runs.  (The instance method
    [fromPhrase] likewise returns with the instance as it was.) *)
Theorem fromPhrase_returns_before_seed (w : World) (phrase : string) :
  let job := ResumeFromMnemonic (mnemonicToSeed phrase "bells"%string) in
  (exists x w',
     static_fromPhrase phrase w = (Return x, w') /\
     self w' = x /\
     seed x = None /\
     privateKey x = ZERO_PRIVKEY /\
     publicKey x = ZERO_KEY /\
     jobs w' = jobs w ++ [job] /\
     seed (self (exec (runJob job) w')) = Some (mnemonicToSeed phrase "bells"%string)) /\
  self (exec (fromPhrase phrase) w) = self w /\
  jobs (exec (fromPhrase phrase) w) = jobs w ++ [job].
Proof.
  intros job. split.
  - eexists _, _. split; [reflexivity|]. repeat split.
  - split; reflexivity.
Qed.

Lemma static_fromSeed_world (w : World) (s : Bytes) :
  static_fromSeed s w = (Return (seeded s), on_self (fun _ => seeded s) w).
Proof. reflexivity. Qed.

Lemma fromHex_nonempty (sHex : string) (s : Bytes) :
  fromHex sHex = Some s -> s <> [] -> String.eqb sHex EmptyString = false.
Proof.
  intros Hs Hne. apply String.eqb_neq. intros ->. cbn in Hs. congruence.
Qed.

(** The static [deserialize] of a state with a decodable, non-empty seed:
    it returns a new instance on the default path, with the address type of
    the state and the children 1..k registered. *)
Lemma static_deserialize_spec (w : World) (sHex : string) (s : Bytes) (k : Z)
    (t : option AddressType) (fuel : nat) :
  fromHex sHex = Some s ->
  s <> [] ->
  0 <= k ->
  2 * k <= Z.of_nat fuel ->
  exists w',
    static_deserialize fuel (mkSerializedHDKey (Some k) sHex t) w =
      (Return (self w'), w') /\
    registry_ok (defaultRoot s) w' /\
    length (wallets (self w')) = Z.to_nat k /\
    same_identity (set_addressType t (seeded s)) (self w') /\
    jobs w' = jobs w.
Proof.
  intros Hs Hne Hk Hfuel. unfold static_deserialize.
  cbn [ser_numberOfAccounts ser_seed ser_addressType].
  rewrite (fromHex_nonempty sHex s Hs Hne), Hs.
  unfold bind at 1. rewrite static_fromSeed_world.
  unfold bind at 1. cbn [assign modify].
  set (w1 := on_self (set_addressType t) (on_self (fun _ => seeded s) w)).
  assert (Hok1 : registry_ok (defaultRoot s) w1) by (by apply registry_ok_fresh).
  destruct (Z.eqb_spec k 0) as [->|Hk0].
  - exists w1. split; [reflexivity|]. split; [exact Hok1|].
    split; [reflexivity|]. split; [apply same_identity_refl|reflexivity].
  - destruct (addAccounts_spec _ w1 k fuel Hok1 Hk Hfuel)
      as (w' & Hrun & Hok' & Hlen & Hid & Hjobs).
    exists w'. unfold bind, this, gets. rewrite Hrun.
    split; [reflexivity|]. split; [exact Hok'|].
    split; [exact Hlen|]. split; [exact Hid|exact Hjobs].
Qed.

(** The effect of [fromOptions] on the seed's own hexadecimal form. *)
Lemma fromOptions_toHex (w : World) (s : Bytes) :
  fromOptions (toHex s) w =
  (Return (Fulfilled tt),
   on_self (fun x =>
     set_privateKey (hd_privateKey (derive (fromMasterSeed s) (hdPath x)))
       (set_publicKey (hd_publicKey (derive (fromMasterSeed s) (hdPath x)))
          (set_root (Some (derive (fromMasterSeed s) (hdPath x)))
             (set_hdWallet (Some (fromMasterSeed s))
                (set_seed (Some s) (set_childIndex 0 x)))))) w).
Proof.
  unfold fromOptions, async, bind at 1. cbn [assign modify].
  rewrite fromHex_toHex. reflexivity.
Qed.

(** C9. The instance method [deserialize], given a state with a decodable,
    non-empty seed, a number of accounts [k >= 1] and any address type,
    returns with the receiver rebuilt from the seed alone: the receiver's
    registry, cache and address type are what they were before the call, so
    a newly constructed receiver ends with no registered account and the
    default address type, whatever [k] and the address type of the state. *)
Theorem instance_deserialize_uses_seed_only (w : World) (sHex : string)
    (s : Bytes) (k : Z) (t : option AddressType) (fuel : nat) :
  fromHex sHex = Some s ->
  s <> [] ->
  1 <= k ->
  2 * k <= Z.of_nat fuel ->
  exists w',
    deserialize fuel (mkSerializedHDKey (Some k) sHex t) w = (Return tt, w') /\
    seed (self w') = Some s /\
    root (self w') = Some (derive (fromMasterSeed s) (hdPath (self w))) /\
    wallets (self w') = wallets (self w) /\
    _index2wallet (self w') = _index2wallet (self w) /\
    addressType (self w') = addressType (self w) /\
    (self w = newHDPrivateKey ->
     wallets (self w') = [] /\ addressType (self w') = defaultAddressType).
Proof.
  intros Hs Hne Hk Hfuel.
  destruct (static_deserialize_spec w sHex s k t fuel Hs Hne ltac:(lia) Hfuel)
    as (w1 & Hrun & _ & _ & Hid & _).
  destruct Hid as (_ & _ & _ & _ & Hseed & _). cbn in Hseed.
  unfold deserialize, bind at 1, restoringFocus. rewrite Hrun, Hseed.
  unfold bind. rewrite fromOptions_toHex.
  eexists. split; [reflexivity|]. cbn.
  do 5 (split; [reflexivity|]). intros ->. split; reflexivity.
Qed.

(** C4, as the code has it.  The persisted state has no derivation path, and
    the static [deserialize] rebuilds on the default one.  For a root
    instance ([childIndex] 0) with a non-empty seed whose public key is that
    of the root on the default path and whose registry holds the children
    1..k of that root (what [addAccounts] registers on the default path),
    [serialize] succeeds and keeps the address type, and the instance that
    [deserialize] builds from its result has the same [getAccounts]. *)
Theorem serialize_deserialize_roundtrip (w : World) (s : Bytes) (fuel : nat) :
  childIndex (self w) = 0 ->
  seed (self w) = Some s ->
  s <> [] ->
  publicKey (self w) = hd_publicKey (defaultRoot s) ->
  map ec_privateKey (wallets (self w)) =
    map (childKey (defaultRoot s))
      (seqZ 1 (Z.of_nat (length (wallets (self w))))) ->
  2 * Z.of_nat (length (wallets (self w))) <= Z.of_nat fuel ->
  exists ser y w',
    serialize w = (Return ser, w) /\
    ser_addressType ser = addressType (self w) /\
    static_deserialize fuel ser w = (Return y, w') /\
    getAccounts y = getAccounts (self w).
Proof.
  intros H0 Hseed Hne Hpk Hkeys Hfuel.
  pose proof (serialize_root w s H0 Hseed) as Hser.
  destruct (static_deserialize_spec w (toHex s) s
              (Z.of_nat (length (wallets (self w)))) (addressType (self w)) fuel
              (fromHex_toHex s) Hne ltac:(lia) Hfuel)
    as (w' & Hrun & Hok & Hlen & Hid & _).
  eexists _, (self w'), w'. split; [exact Hser|]. split; [reflexivity|].
  split; [exact Hrun|].
  rewrite (getAccounts_registry _ w' Hok).
  destruct Hid as (Ht & _ & _ & Hpk' & _). cbn in Ht, Hpk'.
  unfold getAddress, getAccounts. rewrite Ht, Hpk', Hpk, Hlen, Nat2Z.id.
  f_equal.
  transitivity (map (fun d => addressOf (addressType (self w)) (pointFromScalar d))
                  (map ec_privateKey (wallets (self w)))).
  - rewrite Hkeys, map_map. reflexivity.
  - rewrite map_map. reflexivity.
Qed.

(** *** The signing dispatch *)

Lemma find_none_iff {A} (p : A -> bool) (l : list A) :
  find p l = None <-> existsb p l = false.
Proof.
  induction l as [|a l IH]; cbn; [tauto|].
  destruct (p a); cbn; [split; discriminate|exact IH].
Qed.

(** C5, as the code has it.  [signMessage] looks the address up among the
    registered accounts only, and the root is not one of them.  For an
    address that no registered account has, it throws, an error of the kind
    AccountNotFoundError, and changes nothing; for an address that a
    registered account has, it returns a signature that [verifyMessage]
    accepts for that address and text, given that the registered public keys
    are not empty and that the library verifies, for the address of a
    registered key, what it signed with that key. *)
Theorem signMessage_resolution (w : World) (address text : string) :
  (Forall (fun f => getAddress (self w) (ec_publicKey f) <> address)
     (wallets (self w)) ->
   exists e,
     signMessage address text w = (Throw e, w) /\
     kindOf e = AccountNotFoundError) /\
  (Exists (fun f => getAddress (self w) (ec_publicKey f) = address)
     (wallets (self w)) ->
   Forall (fun f =>
       ec_publicKey f <> [] /\
       message_verify text (getAddress (self w) (ec_publicKey f))
         (message_sign text (toHex (ec_privateKey f))) = true)
     (wallets (self w)) ->
   exists sig,
     signMessage address text w = (Return sig, w) /\
     verifyMessage address text sig = true).
Proof.
  split.
  - intros Hnone. exists MustSpecifyPublicKey. split; [|reflexivity].
    unfold signMessage, bind at 1, this, gets.
    destruct (find _ (wallets (self w))) as [f|] eqn:Hfind; [|reflexivity].
    apply find_some in Hfind as [Hin Heq]. apply String.eqb_eq in Heq.
    rewrite Forall_forall in Hnone. apply list_elem_of_In, Hnone in Hin.
    contradiction.
  - intros Hsome Hlib. rewrite Forall_forall in Hlib.
    unfold signMessage, bind at 1, this, gets.
    destruct (find _ (wallets (self w))) as [f|] eqn:Hfind.
    2:{ exfalso. apply Exists_exists in Hsome as (f & Hin & Hf).
        apply list_elem_of_In in Hin.
        apply (find_none _ _ Hfind) in Hin. apply String.eqb_neq in Hin.
        contradiction. }
    apply find_some in Hfind as [Hin Haddr]. apply String.eqb_eq in Haddr.
    pose proof (Hlib f (proj2 (list_elem_of_In _ _) Hin)) as [Hpk _].
    unfold bind, _getPrivateKeyFor. rewrite (eqb_toHex_empty _ Hpk).
    unfold _getWalletForAccount, bind, this, gets.
    destruct (find _ (wallets (self w))) as [f'|] eqn:Hfind'.
    2:{ exfalso. apply (find_none _ _ Hfind') in Hin.
        rewrite String.eqb_refl in Hin. discriminate. }
    apply find_some in Hfind' as [Hin' Hsame]. apply String.eqb_eq, toHex_inj in Hsame.
    eexists. split; [reflexivity|]. unfold verifyMessage.
    destruct (Hlib f' (proj2 (list_elem_of_In _ _) Hin')) as [_ Hv].
    rewrite Hsame, Haddr in Hv. exact Hv.
Qed.

Lemma signOne_unregistered (w : World) (psbt : Psbt) (i : ToSignInput) :
  find (fun f => String.eqb (toHex (ec_publicKey f)) (ts_publicKey i))
    (wallets (self w)) = None ->
  signOne i (w, psbt) =
  (Throw (AccountPublicKeyNotFound (ts_publicKey i)), (w, psbt)).
Proof.
  intros Hfind. unfold signOne, bind, onFst, findAccountByPk, bind, this, gets.
  cbn [fst snd]. rewrite Hfind. reflexivity.
Qed.

Lemma signOne_registered (w : World) (psbt : Psbt) (i : ToSignInput) (f : ECPair) :
  find (fun f => String.eqb (toHex (ec_publicKey f)) (ts_publicKey i))
    (wallets (self w)) = Some f ->
  signOne i (w, psbt) =
  let c := SignInput (ts_index i) (ec_privateKey f) (ts_sighashTypes i) in
  if psbt_accepts psbt c then (Return tt, (w, psbt ++ [c]))
  else (Throw PsbtError, (w, psbt)).
Proof.
  intros Hfind. unfold signOne, bind, onFst, findAccountByPk, bind, this, gets.
  cbn [fst snd]. rewrite Hfind. unfold onSnd, psbt_call, ret. cbn [fst snd].
  destruct (psbt_accepts psbt _); reflexivity.
Qed.



End Registry.

(** ** The theorems at concrete inputs *)

(** Two accounts, then three more, on the seed 01 02. *)
Lemma addAccounts_monotone_witness :
  exists w1 w2,
    @addAccounts toyPrims 4 2 toyWorld =
      (Return ["U02010d0102"; "U02020d0102"]%string, w1) /\
    @addAccounts toyPrims 6 3 w1 =
      (Return ["U02030d0102"; "U02040d0102"; "U02050d0102"]%string, w2) /\
    @getAccounts toyPrims (self w2) =
      @getAccounts toyPrims (self w1) ++
      ["U02030d0102"; "U02040d0102"; "U02050d0102"]%string.
Proof.
  destruct (@addAccounts_monotone toyPrims toyWorld (@defaultRoot toyPrims toySeed)
              2 3 4 6 eq_refl eq_refl eq_refl
              ltac:(lia) ltac:(lia) ltac:(lia) ltac:(lia))
    as (w1 & w2 & H1 & H2 & _ & _ & _ & H3 & _).
  exists w1, w2. split; [exact H1|]. split; [exact H2|exact H3].
Defined.

(** Three calls, for 2, 0 and 3 accounts. *)
Lemma registry_without_repeated_object_witness :
  exists w',
    @addAccountsMany toyPrims 6 [2; 0; 3] toyWorld = (Return tt, w') /\
    NoDup (map oid (wallets (self w'))) /\
    length (map ec_privateKey (wallets (self w'))) = 5%nat.
Proof.
  destruct (@registry_without_repeated_object toyPrims toyWorld
              (@defaultRoot toyPrims toySeed) 6 [2; 0; 3]
              eq_refl eq_refl eq_refl
              ltac:(repeat constructor; lia))
    as (_ & w' & Hrun & Hnd & Hkeys).
  exists w'. split; [exact Hrun|]. split; [exact Hnd|].
  rewrite Hkeys. reflexivity.
Defined.

(** Index 1 looked up before and after [addAccounts(2)], then index 7; and
    the path changed to m/1 on the instance with two accounts, whose cache
    holds the indices 1 and 2. *)
Lemma cache_derives_each_index_once_witness :
  (exists new,
     deriveChild_calls
       (@afterUses toyPrims [Lookup 1; AddAccounts 4 2; Lookup 1; Lookup 7] toyWorld) =
     new ++ deriveChild_calls toyWorld /\
     NoDup new /\
     Forall validIndex new) /\
  is_Some (_index2wallet (self toyWorld2) !! 1) /\
  exists w1 entry w2,
    @changeHdPath toyPrims "m/1" toyWorld2 = (Return tt, w1) /\
    _index2wallet (self w1) = ∅ /\
    @_addressFromIndex toyPrims 1 w1 = (Return entry, w2) /\
    ec_privateKey (snd entry) =
      @childKey toyPrims (@derive toyPrims (@fromMasterSeed toyPrims toySeed) "m/1") 1 /\
    deriveChild_calls w2 = 1 :: deriveChild_calls toyWorld2.
Proof.
  destruct (@cache_derives_each_index_once toyPrims toyWorld
              [Lookup 1; AddAccounts 4 2; Lookup 1; Lookup 7] eq_refl
              ltac:(split; [repeat constructor; unfold validIndex, maxIndex; lia
                           |vm_compute; discriminate]))
    as (H1 & _ & _ & H4).
  split; [exact H1|]. split; [vm_compute; by eexists|].
  exact (H4 toyWorld2 "m/1"%string (@fromMasterSeed toyPrims toySeed) 1
           eq_refl ltac:(vm_compute; reflexivity)
           ltac:(unfold validIndex, maxIndex; lia)).
Defined.

(** The instance with two accounts, as a root and with [childIndex] 3. *)
Lemma serialize_guard_witness :
  @serialize toyPrims toyWorld2 =
    (Return (@mkSerializedHDKey toyPrims (Some 2) "0102" None), toyWorld2) /\
  exists e,
    @serialize toyPrims (on_self (set_childIndex 3) toyWorld2) =
      (Throw e, on_self (set_childIndex 3) toyWorld2) /\
    kindOf e = InvalidOperationError.
Proof.
  split.
  - apply (proj2 (@serialize_guard toyPrims toyWorld2) toySeed); reflexivity.
  - apply (proj1 (@serialize_guard toyPrims (on_self (set_childIndex 3) toyWorld2))).
    cbn. lia.
Defined.

(** A state with two accounts and an address type, on a new receiver. *)
Lemma instance_deserialize_uses_seed_only_witness :
  exists w',
    @deserialize toyPrims 4
      (@mkSerializedHDKey toyPrims (Some 2) "0102" (Some 1%nat))
      (@newWorld toyPrims) = (Return tt, w') /\
    seed (self w') = Some toySeed /\
    wallets (self w') = [] /\
    addressType (self w') = None.
Proof.
  destruct (@instance_deserialize_uses_seed_only toyPrims (@newWorld toyPrims)
              "0102" toySeed 2 (Some 1%nat) 4 eq_refl
              ltac:(discriminate) ltac:(lia) ltac:(lia))
    as (w' & Hrun & Hseed & _ & _ & _ & _ & Hnew).
  destruct (Hnew eq_refl) as [Hw Ht].
  exists w'. split; [exact Hrun|]. split; [exact Hseed|]. split; [exact Hw|exact Ht].
Defined.

(** The instance with two accounts, on the default path. *)
Lemma serialize_deserialize_roundtrip_witness :
  exists ser y w',
    @serialize toyPrims toyWorld2 = (Return ser, toyWorld2) /\
    @static_deserialize toyPrims 4 ser toyWorld2 = (Return y, w') /\
    @getAccounts toyPrims y = ["U020d0102"; "U02010d0102"; "U02020d0102"]%string.
Proof.
  destruct (@serialize_deserialize_roundtrip toyPrims toyWorld2 toySeed 4
              eq_refl eq_refl ltac:(discriminate) eq_refl eq_refl
              ltac:(vm_compute; discriminate))
    as (ser & y & w' & Hser & _ & Hrun & Hacc).
  exists ser, y, w'. split; [exact Hser|]. split; [exact Hrun|exact Hacc].
Defined.

(** The address of the first account, and an address of no account. *)
Lemma signMessage_resolution_witness :
  (exists sig,
     @signMessage toyPrims "U02010d0102" "hi" toyWorld2 = (Return sig, toyWorld2) /\
     @verifyMessage toyPrims "U02010d0102" "hi" sig = true) /\
  (exists e,
     @signMessage toyPrims "U02090d0102" "hi" toyWorld2 = (Throw e, toyWorld2) /\
     kindOf e = AccountNotFoundError).
Proof.
  split.
  - apply (proj2 (@signMessage_resolution toyPrims toyWorld2 "U02010d0102" "hi")).
    + apply Exists_cons_hd. reflexivity.
    + repeat constructor; discriminate.
  - apply (proj1 (@signMessage_resolution toyPrims toyWorld2 "U02090d0102" "hi")).
    repeat constructor; discriminate.
Defined.



(** C4 as stated fails.  A root instance with a seed and one account, on the
    path m/1: [serialize] succeeds and keeps the address type, [deserialize]
    returns an instance, and the accounts of that instance are not those of
    the instance serialized. *)
Lemma roundtrip_forgets_changed_path :
  childIndex (self toyWorldMoved) = 0 /\
  seed (self toyWorldMoved) = Some toySeed /\
  @serialize toyPrims toyWorldMoved = (Return toySerializedMoved, toyWorldMoved) /\
  ser_addressType toySerializedMoved = addressType (self toyWorldMoved) /\
  @getAccounts toyPrims (self toyWorldMoved) =
    ["U020d0102"; "U0201030102"]%string /\
  @accountsOf toyPrims
    (result (@static_deserialize toyPrims 4 toySerializedMoved) toyWorldMoved) =
    ["U020d0102"; "U02010d0102"]%string /\
  @accountsOf toyPrims
    (result (@static_deserialize toyPrims 4 toySerializedMoved) toyWorldMoved) <>
    @getAccounts toyPrims (self toyWorldMoved).
Proof.
  split; [vm_compute; reflexivity|]. split; [vm_compute; reflexivity|].
  split; [vm_compute; reflexivity|]. split; [vm_compute; reflexivity|].
  split; [vm_compute; reflexivity|]. split; [vm_compute; reflexivity|].
  vm_compute. discriminate.
Qed.

(** C5 as stated fails.  The root address is the first of [getAccounts], and
    [signMessage] throws for it. *)
Lemma signMessage_refuses_root_address :
  @getAccounts toyPrims (self toyWorld2) =
    ["U020d0102"; "U02010d0102"; "U02020d0102"]%string /\
  @signMessage toyPrims "U020d0102" "hi" toyWorld2 =
    (Throw MustSpecifyPublicKey, toyWorld2).
Proof. split; vm_compute; reflexivity. Qed.

(** C6 as stated fails.  When the indices 1 and 2 derive the same key, both
    are derived and both are registered: the registry holds two equal key
    pairs, in two objects. *)
Lemma registry_holds_equal_key_pairs :
  deriveChild_calls collidingWorld2 = [2; 1] /\
  map oid (wallets (self collidingWorld2)) = [0; 1]%nat /\
  map ec_privateKey (wallets (self collidingWorld2)) =
    [[Byte.x07; Byte.x0d; Byte.x01]; [Byte.x07; Byte.x0d; Byte.x01]] /\
  map (@ec_publicKey collidingPrims) (wallets (self collidingWorld2)) =
    [[Byte.x02; Byte.x07; Byte.x0d; Byte.x01];
     [Byte.x02; Byte.x07; Byte.x0d; Byte.x01]].
Proof. repeat split; vm_compute; reflexivity. Qed.

(** C3 at a concrete input.  After [addAccounts(2)] and [changeHdPath] to
    m/1 the root is the node derived on m/1, and [getAccounts] is one
    address, but that of the root on the default path: the address of the
    root on m/1 is another. *)
Theorem changeHdPath_root_address_is_stale :
  root (self (exec (@changeHdPath toyPrims "m/1") toyWorld2)) =
    Some (@derive toyPrims (@fromMasterSeed toyPrims toySeed) "m/1") /\
  @getAccounts toyPrims (self (exec (@changeHdPath toyPrims "m/1") toyWorld2)) =
    ["U020d0102"%string] /\
  @addressOf toyPrims None
    (hd_publicKey (@derive toyPrims (@fromMasterSeed toyPrims toySeed) hdPathString)) =
    "U020d0102"%string /\
  @addressOf toyPrims None
    (hd_publicKey (@derive toyPrims (@fromMasterSeed toyPrims toySeed) "m/1")) =
    "U02030102"%string.
Proof. repeat split; vm_compute; reflexivity. Qed.

(** ** More properties of the keyring *)

Section More.
Context `{Prims : Primitives}.

(** *** What [addAccounts] keeps *)

(** Whatever a lookup keeps, and the registration of one more pair keeps,
    the loop of [addAccounts] keeps, however it ends. *)
Section LoopKeeps.
Variable P : World -> Prop.
Hypothesis P_lookup : forall i w, P w -> P (exec (_addressFromIndex i) w).
Hypothesis P_register : forall e w,
  P w -> P (on_self (set_wallets (wallets (self w) ++ [e])) w).

Lemma loop_keeps (fuel : nat) :
  forall count idx acc w,
  P w -> P (exec (addAccounts_loop fuel count idx acc) w).
Proof.
  induction fuel as [|fuel IH]; intros count idx acc w Hw.
  - unfold exec. cbn. destruct (count =? 0); exact Hw.
  - destruct (Z.eq_dec count 0) as [->|Hc].
    + unfold exec. rewrite addAccounts_loop_done. exact Hw.
    + unfold exec. rewrite addAccounts_loop_step by exact Hc.
      pose proof (P_lookup idx w Hw) as Hw1. unfold exec in Hw1.
      destruct (_addressFromIndex idx w) as [[entry| |] w1]; cbn [snd] in *;
        try exact Hw1.
      destruct (includes (wallets (self w1)) (snd entry)).
      * apply IH, Hw1.
      * apply IH, P_register, Hw1.
Qed.

Lemma addAccounts_keeps (fuel : nat) (n : Z) (w : World) :
  P w -> P (exec (addAccounts fuel n) w).
Proof.
  intros Hw. unfold exec, addAccounts, bind, this, gets.
  pose proof (loop_keeps fuel n
    (if Nat.eqb (length (wallets (self w))) 0 then 1
     else Z.of_nat (length (wallets (self w)))) [] w Hw) as H.
  unfold exec in H.
  destruct (addAccounts_loop _ _ _ _ w) as [[?| |] ?]; exact H.
Qed.

End LoopKeeps.

Lemma grown_from_lookup (w : World) (i : Z) (w0 : World) :
  grown_from w w0 -> grown_from w (exec (_addressFromIndex i) w0).
Proof.
  intros (Hpre & Hcache & Hid & Hjobs). unfold exec.
  destruct (_index2wallet (self w0) !! i) as [e|] eqn:Hc.
  - rewrite (addressFromIndex_hit w0 i e Hc).
    exact (conj Hpre (conj Hcache (conj Hid Hjobs))).
  - destruct (root (self w0)) as [r|] eqn:Hr.
    + rewrite (addressFromIndex_miss w0 r i Hc Hr). cbn [snd].
      split; [exact Hpre|]. split; [|split; [exact Hid|exact Hjobs]].
      intros j entry Hj. cbn. apply Hcache in Hj.
      rewrite lookup_insert_ne; [exact Hj|congruence].
    + rewrite (addressFromIndex_no_root w0 i Hc Hr).
      exact (conj Hpre (conj Hcache (conj Hid Hjobs))).
Qed.

Lemma grown_from_register (w : World) (e : ECPair) (w0 : World) :
  grown_from w w0 ->
  grown_from w (on_self (set_wallets (wallets (self w0) ++ [e])) w0).
Proof.
  intros (Hpre & Hcache & Hid & Hjobs).
  split; [|split; [exact Hcache|split; [exact Hid|exact Hjobs]]].
  cbn. by apply prefix_app_r.
Qed.

(** X1. [addAccounts] only appends: whatever the count and however the call
    ends (it returns, throws, or is still looping when the fuel is spent),
    the accounts registered before are the first accounts after, in the same
    order; every entry of the cache is still there; and the address type,
    [childIndex], keys, seed, root and path of the instance are unchanged. *)
Theorem addAccounts_only_appends (fuel : nat) (n : Z) (w : World) :
  wallets (self w) `prefix_of` wallets (self (exec (addAccounts fuel n) w)) /\
  (forall i entry,
     _index2wallet (self w) !! i = Some entry ->
     _index2wallet (self (exec (addAccounts fuel n) w)) !! i = Some entry) /\
  same_identity (self w) (self (exec (addAccounts fuel n) w)) /\
  jobs (exec (addAccounts fuel n) w) = jobs w.
Proof.
  apply (addAccounts_keeps (grown_from w)).
  - apply grown_from_lookup.
  - apply grown_from_register.
  - split; [reflexivity|]. split; [auto|]. split; [apply same_identity_refl|reflexivity].
Qed.

(** *** Counts and instances [addAccounts] is not made for *)

(** The loop with a negative count on a registry in order never reaches
    zero: it runs out of any fuel, registering a pair every other turn.
    [atFree] tells whether the loop is at the next free index or at the last
    registered one. *)
Lemma addAccounts_loop_negative (r : HDNode) (fuel : nat) :
  forall (count : Z) (acc : list string) (w : World) (atFree : bool),
  registry_ok r w ->
  count < 0 ->
  (atFree = false -> wallets (self w) <> []) ->
  let idx := Z.of_nat (length (wallets (self w))) + (if atFree then 1 else 0) in
  result (addAccounts_loop fuel count idx acc) w = OutOfFuel /\
  length (wallets (self (exec (addAccounts_loop fuel count idx acc) w))) =
    (length (wallets (self w)) + (fuel + (if atFree then 1 else 0)) / 2)%nat.
Proof.
  induction fuel as [|fuel IH]; intros count acc w atFree Hok Hneg Hne idx.
  - unfold result, exec. cbn [addAccounts_loop].
    assert (Hc : (count =? 0) = false) by (apply Z.eqb_neq; lia).
    rewrite Hc. cbn. split; [reflexivity|]. destruct atFree; cbn; lia.
  - unfold result, exec. rewrite addAccounts_loop_step by lia.
    set (L := length (wallets (self w))) in *.
    destruct atFree; subst idx.
    + assert (Hmiss : _index2wallet (self w) !! (Z.of_nat L + 1) = None).
      { apply (ok_dom r w Hok). fold L. lia. }
      rewrite (addressFromIndex_miss w r _ Hmiss (ok_root r w Hok)).
      cbn [snd fst].
      rewrite (includes_false _ _ (next_oid w)) by (reflexivity || apply Hok).
      change (on_self _ (afterMiss w r (Z.of_nat L + 1)))
        with (afterPush w r (Z.of_nat L + 1)).
      pose proof (registry_ok_push r w Hok) as Hok1. fold L in Hok1.
      pose proof (afterPush_length r w (Z.of_nat L + 1)) as HL1. fold L in HL1.
      destruct (IH (count - 1) (acc ++ [childAddress (addressType (self w)) r (Z.of_nat L + 1)])
                  (afterPush w r (Z.of_nat L + 1)) false Hok1 ltac:(lia))
        as [Hres Hlen].
      { intros _ Hnil. rewrite Hnil in HL1. discriminate. }
      unfold result, exec in Hres, Hlen. rewrite HL1 in Hres, Hlen.
      replace (Z.of_nat (S L) + 0) with (Z.of_nat L + 1) in Hres, Hlen by lia.
      split; [exact Hres|]. rewrite Hlen.
      replace (S fuel + 1)%nat with (fuel + 0 + 1 * 2)%nat by lia.
      rewrite Nat.div_add by lia. lia.
    + assert (HL : (1 <= L)%nat).
      { destruct (wallets (self w)) eqn:E; [by specialize (Hne eq_refl)|].
        subst L. cbn. lia. }
      destruct (_index2wallet (self w) !! (Z.of_nat L + 0)) as [[a e]|] eqn:Hhit.
      2:{ apply (ok_dom r w Hok) in Hhit. fold L in Hhit. lia. }
      rewrite (addressFromIndex_hit w _ _ Hhit). cbn [snd fst].
      rewrite includes_true.
      2:{ eapply list_elem_of_lookup_2, (ok_cached r w Hok), Hhit. }
      destruct (IH count acc w true Hok Hneg ltac:(discriminate)) as [Hres Hlen].
      unfold result, exec in Hres, Hlen. fold L in Hres, Hlen.
      replace (Z.of_nat L + 0 + 1) with (Z.of_nat L + 1) by lia.
      split; [exact Hres|]. rewrite Hlen.
      by replace (S fuel + 0)%nat with (fuel + 1)%nat by lia.
Qed.

(** [addAccounts] is its loop, entered at the start index. *)
Lemma addAccounts_is_loop (fuel : nat) (n : Z) (w : World) :
  addAccounts fuel n w =
  addAccounts_loop fuel n
    (if Nat.eqb (length (wallets (self w))) 0 then 1
     else Z.of_nat (length (wallets (self w)))) [] w.
Proof. reflexivity. Qed.

(** [addAccounts] with a negative count, on a registry in order. *)
Lemma addAccounts_negative (r : HDNode) (w : World) (n : Z) (fuel : nat) :
  registry_ok r w ->
  n < 0 ->
  result (addAccounts fuel n) w = OutOfFuel /\
  (length (wallets (self w)) + fuel / 2 <=
   length (wallets (self (exec (addAccounts fuel n) w))))%nat.
Proof.
  intros Hok Hn. unfold result, exec. rewrite addAccounts_is_loop.
  destruct (Nat.eqb_spec (length (wallets (self w))) 0) as [H0|H0].
  - destruct (addAccounts_loop_negative r fuel n [] w true Hok Hn ltac:(discriminate))
      as [Hres Hlen].
    unfold result, exec in Hres, Hlen. rewrite H0 in Hres, Hlen.
    change (Z.of_nat 0 + 1) with 1 in Hres, Hlen.
    split; [exact Hres|]. rewrite Hlen, H0.
    assert (fuel / 2 <= (fuel + 1) / 2)%nat by (apply Nat.Div0.div_le_mono; lia).
    lia.
  - destruct (addAccounts_loop_negative r fuel n [] w false Hok Hn) as [Hres Hlen].
    { intros _ Hnil. rewrite Hnil in H0. by apply H0. }
    unfold result, exec in Hres, Hlen.
    replace (Z.of_nat (length (wallets (self w))) + 0)
      with (Z.of_nat (length (wallets (self w)))) in Hres, Hlen by lia.
    split; [exact Hres|]. rewrite Hlen, Nat.add_0_r. lia.
Qed.

(** X2. With a negative count, [addAccounts] on an instance initialised from
    a seed (empty registry and cache) never returns: whatever fuel it is
    given it is still in its loop when the fuel is spent, and it has by then
    registered at least one account for every two turns. *)
Theorem addAccounts_negative_never_returns (w : World) (r : HDNode) (n : Z)
    (fuel : nat) :
  root (self w) = Some r ->
  wallets (self w) = [] ->
  _index2wallet (self w) = ∅ ->
  n < 0 ->
  result (addAccounts fuel n) w = OutOfFuel /\
  (fuel / 2 <= length (wallets (self (exec (addAccounts fuel n) w))))%nat.
Proof.
  intros Hr Hw Hc Hn.
  destruct (addAccounts_negative r w n fuel (registry_ok_fresh r w Hr Hw Hc) Hn)
    as [Hres Hlen].
  split; [exact Hres|]. rewrite Hw in Hlen. cbn [length] in Hlen. lia.
Qed.

(** X3. On an instance that has no root (never initialised from a seed, as
    one newly constructed), [addAccounts] with a count other than 0 throws a
    [TypeError] at its first lookup and changes nothing; with the count 0 it
    returns the empty list on any instance and changes nothing. *)
Theorem addAccounts_without_root (w : World) (n : Z) (fuel : nat) :
  (root (self w) = None ->
   _index2wallet (self w) = ∅ ->
   n <> 0 ->
   addAccounts (S fuel) n w = (Throw TypeError, w)) /\
  addAccounts fuel 0 w = (Return [], w).
Proof.
  split.
  - intros Hr Hc Hn. unfold addAccounts, bind at 1, this, gets.
    rewrite addAccounts_loop_step by exact Hn.
    rewrite addressFromIndex_no_root; [reflexivity| |exact Hr].
    rewrite Hc. apply lookup_empty.
  - unfold addAccounts, bind, this, gets. apply addAccounts_loop_done.
Qed.

(** *** Registering on whatever root the instance has *)







(** *** Looking an account up by its address *)

Lemma findAccount_registered (w : World) (address : string) :
  Exists (fun f => getAddress (self w) (ec_publicKey f) = address)
    (wallets (self w)) ->
  exists f,
    findAccount address w = (Return f, w) /\
    f ∈ wallets (self w) /\
    getAddress (self w) (ec_publicKey f) = address.
Proof.
  intros Hsome. unfold findAccount, bind, this, gets.
  destruct (find _ (wallets (self w))) as [f|] eqn:Hfind.
  - apply find_some in Hfind as [Hin Haddr]. apply String.eqb_eq in Haddr.
    exists f. split; [reflexivity|]. split; [by apply list_elem_of_In|exact Haddr].
  - exfalso. apply Exists_exists in Hsome as (f & Hin & Hf).
    apply list_elem_of_In in Hin.
    apply (find_none _ _ Hfind) in Hin. apply String.eqb_neq in Hin.
    contradiction.
Qed.

Lemma findAccount_unregistered (w : World) (address : string) :
  Forall (fun f => getAddress (self w) (ec_publicKey f) <> address)
    (wallets (self w)) ->
  findAccount address w = (Throw (AccountAddressNotFound address), w).
Proof.
  intros Hnone. unfold findAccount, bind, this, gets.
  destruct (find _ (wallets (self w))) as [f|] eqn:Hfind; [|reflexivity].
  apply find_some in Hfind as [Hin Heq]. apply String.eqb_eq in Heq.
  rewrite Forall_forall in Hnone. apply list_elem_of_In, Hnone in Hin.
  contradiction.
Qed.

(** The address of each child of the root is that of a registered account,
    on a registry in order. *)
Lemma child_registered (r : HDNode) (w : World) (i : Z) :
  registry_ok r w ->
  1 <= i <= Z.of_nat (length (wallets (self w))) ->
  Exists (fun f => getAddress (self w) (ec_publicKey f) =
                   childAddress (addressType (self w)) r i)
    (wallets (self w)).
Proof.
  intros Hok Hi.
  destruct (wallets (self w) !! Z.to_nat (i - 1)) as [e|] eqn:He.
  2:{ apply lookup_ge_None in He. lia. }
  apply Exists_exists. exists e. split; [by eapply list_elem_of_lookup_2|].
  assert (Hk : map ec_privateKey (wallets (self w)) !! Z.to_nat (i - 1) =
               Some (ec_privateKey e)).
  { change (map ec_privateKey (wallets (self w)))
      with (ec_privateKey <$> wallets (self w)).
    by rewrite list_lookup_fmap, He. }
  rewrite (ok_keys r w Hok) in Hk.
  change (map (childKey r) ?l) with (childKey r <$> l) in Hk.
  rewrite list_lookup_fmap, lookup_seqZ_lt in Hk by lia.
  cbn in Hk. injection Hk as Hk.
  unfold getAddress, childAddress, ec_publicKey. rewrite <- Hk.
  do 3 f_equal. lia.
Qed.

(** X5. Every address that [addAccounts] returns can be looked up
    afterwards: on an instance initialised from a seed with an empty
    registry, after [addAccounts n] each returned address is listed by
    [getAccounts], and [findAccount] and [exportPublicKey] resolve it,
    without changing anything, to a registered account that has this
    address. *)
Theorem addAccounts_then_findAccount (w : World) (r : HDNode) (n : Z)
    (fuel : nat) :
  root (self w) = Some r ->
  wallets (self w) = [] ->
  _index2wallet (self w) = ∅ ->
  0 <= n ->
  2 * n <= Z.of_nat fuel ->
  exists addresses w',
    addAccounts fuel n w = (Return addresses, w') /\
    Forall (fun a =>
        a ∈ getAccounts (self w') /\
        exists f,
          findAccount a w' = (Return f, w') /\
          exportPublicKey a w' = (Return (toHex (ec_publicKey f)), w') /\
          f ∈ wallets (self w') /\
          getAddress (self w') (ec_publicKey f) = a)
      addresses.
Proof.
  intros Hr Hw Hc Hn Hfuel.
  pose proof (registry_ok_fresh r w Hr Hw Hc) as Hok.
  destruct (addAccounts_spec r w n fuel Hok Hn Hfuel)
    as (w' & Hrun & Hok' & Hlen & Hid & _).
  rewrite Hw in Hrun, Hlen. cbn [length] in Hrun, Hlen.
  destruct Hid as (Ht & _).
  eexists _, w'. split; [exact Hrun|].
  apply Forall_forall. intros a Ha.
  change (map ?f ?l) with (f <$> l) in Ha.
  apply list_elem_of_fmap in Ha as (i & -> & Hi).
  apply elem_of_seqZ in Hi. rewrite <- Ht.
  assert (Hreg := child_registered r w' i Hok' ltac:(lia)).
  split.
  - rewrite (getAccounts_registry r w' Hok'). apply elem_of_cons. right.
    change (map ?f ?l) with (f <$> l). apply list_elem_of_fmap.
    exists i. split; [reflexivity|]. apply elem_of_seqZ. lia.
  - destruct (findAccount_registered w' _ Hreg) as (f & Hfind & Hin & Haddr).
    exists f. split; [exact Hfind|]. split; [|split; [exact Hin|exact Haddr]].
    unfold exportPublicKey, bind. rewrite Hfind. reflexivity.
Qed.

(** X6. After [changeHdPath], [addAccounts] starts again at index 1 on the
    root of the new path: on an instance with a master node, whatever it had
    registered or cached before, [changeHdPath p] on a path [p] that
    [derive] takes, followed by [addAccounts n], returns the addresses of
    the children 1..n of the node derived on [p], and these are then the
    accounts [getAccounts] lists after its first entry. *)
Theorem changeHdPath_then_addAccounts (w : World) (h : HDNode) (p : string)
    (n : Z) (fuel : nat) :
  wellFormedPath p = true ->
  hdWallet (self w) = Some h ->
  0 <= n ->
  2 * n <= Z.of_nat fuel ->
  let addresses :=
    map (childAddress (addressType (self w)) (derive h p)) (seqZ 1 n) in
  exists w',
    (changeHdPath p ;;; addAccounts fuel n) w = (Return addresses, w') /\
    root (self w') = Some (derive h p) /\
    drop 1 (getAccounts (self w')) = addresses.
Proof.
  intros _ Hh Hn Hfuel addresses.
  unfold bind at 1. rewrite changeHdPath_world.
  set (w0 := on_self _ w).
  assert (Hok0 : registry_ok (derive h p) w0).
  { apply registry_ok_fresh; [|reflexivity|reflexivity].
    subst w0. cbn. by rewrite Hh. }
  destruct (addAccounts_spec _ w0 n fuel Hok0 Hn Hfuel)
    as (w' & Hrun & Hok' & Hlen & Hid & _).
  exists w'. split; [exact Hrun|]. split; [apply Hok'|].
  rewrite (getAccounts_registry _ w' Hok'). cbn [drop].
  destruct Hid as (Ht & _). rewrite Ht, Hlen.
  change (length (wallets (self w0))) with 0%nat.
  change (addressType (self w0)) with (addressType (self w)).
  subst addresses. by replace (Z.of_nat (0 + Z.to_nat n)) with n by lia.
Qed.

(** *** Signing the inputs of a transaction *)

(** What the callback of [signPsbt] does with one descriptor. *)
Lemma signOne_cases (w : World) (psbt : Psbt) (i : ToSignInput) :
  signOne i (w, psbt) =
  match find (fun f => String.eqb (toHex (ec_publicKey f)) (ts_publicKey i))
          (wallets (self w)) with
  | Some f =>
      let c := SignInput (ts_index i) (ec_privateKey f) (ts_sighashTypes i) in
      if psbt_accepts psbt c then (Return tt, (w, psbt ++ [c]))
      else (Throw PsbtError, (w, psbt))
  | None => (Throw (AccountPublicKeyNotFound (ts_publicKey i)), (w, psbt))
  end.
Proof.
  destruct (find _ (wallets (self w))) as [f|] eqn:Hfind.
  - by apply signOne_registered.
  - by apply signOne_unregistered.
Qed.

(** The loop over the descriptors keeps the keyring and only adds
    [signInput] calls to the container, however it ends. *)
Lemma signInputs_effect (w : World) (inputs : list ToSignInput) :
  forall psbt : Psbt,
  exists signed,
    exec (forEach signOne inputs) (w, psbt) = (w, psbt ++ signed) /\
    (FinalizeAllInputs ∉ signed).
Proof.
  induction inputs as [|i inputs IH]; intros psbt.
  - exists []. rewrite app_nil_r. split; [reflexivity|apply not_elem_of_nil].
  - unfold exec. cbn [forEach]. unfold bind at 1. rewrite signOne_cases.
    destruct (find _ (wallets (self w))) as [f|].
    + cbv zeta. destruct (psbt_accepts psbt _).
      * destruct (IH (psbt ++ [SignInput (ts_index i) (ec_privateKey f) (ts_sighashTypes i)]))
          as (signed & Hrun & Hfin).
        unfold exec in Hrun.
        exists (SignInput (ts_index i) (ec_privateKey f) (ts_sighashTypes i) :: signed).
        split; [rewrite Hrun, <- app_assoc; reflexivity|].
        intros [Hd|Hd]%elem_of_cons; [discriminate|by apply Hfin].
      * exists []. rewrite app_nil_r. split; [reflexivity|apply not_elem_of_nil].
    + exists []. rewrite app_nil_r. split; [reflexivity|apply not_elem_of_nil].
Qed.

(** X7. [signPsbt] never changes the keyring and only adds calls to the
    container, after those it had; and the inputs are finalized exactly when
    it returns: [finalizeAllInputs] is among the calls it added if and only
    if it did not throw. *)
Theorem signPsbt_finalizes_iff_returns (w : World) (psbt : Psbt)
    (inputs : list ToSignInput) :
  exists calls,
    exec (signPsbt inputs) (w, psbt) = (w, psbt ++ calls) /\
    (result (signPsbt inputs) (w, psbt) = Return tt <->
     FinalizeAllInputs ∈ calls).
Proof.
  destruct (signInputs_effect w inputs psbt) as (signed & Hrun & Hfin).
  unfold exec, result, signPsbt, bind in *.
  destruct (forEach signOne inputs (w, psbt)) as [[[]| |] st]; cbn [snd fst] in *;
    subst st.
  - unfold onSnd, psbt_call. cbn [fst snd].
    destruct (psbt_accepts (psbt ++ signed) FinalizeAllInputs).
    + exists (signed ++ [FinalizeAllInputs]). cbn [fst snd].
      split; [by rewrite app_assoc|]. split; [|reflexivity].
      intros _. apply elem_of_app. right. apply list_elem_of_singleton. reflexivity.
    + exists signed. cbn [fst snd]. split; [reflexivity|].
      split; [discriminate|]. intros H. by apply Hfin in H.
  - exists signed. split; [reflexivity|].
    split; [discriminate|]. intros H. by apply Hfin in H.
  - exists signed. split; [reflexivity|].
    split; [discriminate|]. intros H. by apply Hfin in H.
Qed.



(** *** What signing reads *)

Lemma signInputs_same_registry (w1 w2 : World) (inputs : list ToSignInput) :
  wallets (self w1) = wallets (self w2) ->
  forall psbt : Psbt,
  result (forEach signOne inputs) (w1, psbt) =
    result (forEach signOne inputs) (w2, psbt) /\
  snd (exec (forEach signOne inputs) (w1, psbt)) =
    snd (exec (forEach signOne inputs) (w2, psbt)).
Proof.
  intros Hw. induction inputs as [|i inputs IH]; intros psbt.
  - split; reflexivity.
  - unfold result, exec. cbn [forEach]. unfold bind.
    rewrite !signOne_cases, Hw.
    destruct (find _ (wallets (self w2))) as [f|]; [|split; reflexivity].
    cbv zeta. destruct (psbt_accepts psbt _); [|split; reflexivity].
    apply IH.
Qed.

(** [signMessage] resolves the account, then has its key sign the text. *)
Lemma signMessage_by_account (w : World) (address text : string) :
  signMessage address text w =
  (keyPair <- signingAccount address ;;
   ret (message_sign text (toHex (ec_privateKey keyPair)))) w.
Proof.
  unfold signMessage, signingAccount, bind, this, gets.
  destruct (_getPrivateKeyFor _ w) as [[?| |] ?]; reflexivity.
Qed.

(** X9. Signing reads the registry and the address type and nothing else of
    the instance.  [signMessage] has the message library sign with the key
    of the account its first statement resolves, and throws what that
    statement throws; on two instances with the same registered accounts
    and the same address type, whatever their seeds, roots, keys, paths and
    caches, that statement resolves the same account or throws the same
    error, and [signPsbt] has the same outcome and makes the same calls on
    the container. *)
Theorem signing_reads_registry_only (w1 w2 : World) (address text : string)
    (inputs : list ToSignInput) (psbt : Psbt) :
  wallets (self w1) = wallets (self w2) ->
  addressType (self w1) = addressType (self w2) ->
  signMessage address text w1 =
    (keyPair <- signingAccount address ;;
     ret (message_sign text (toHex (ec_privateKey keyPair)))) w1 /\
  result (signingAccount address) w1 = result (signingAccount address) w2 /\
  exec (signingAccount address) w1 = w1 /\
  result (signPsbt inputs) (w1, psbt) = result (signPsbt inputs) (w2, psbt) /\
  snd (exec (signPsbt inputs) (w1, psbt)) = snd (exec (signPsbt inputs) (w2, psbt)).
Proof.
  intros Hw Ht. split; [apply signMessage_by_account|].
  assert (Hsame : forall w pk, _getPrivateKeyFor pk w =
            (fst (_getPrivateKeyFor pk w), w)).
  { intros w pk. unfold _getPrivateKeyFor.
    destruct (String.eqb pk EmptyString); [reflexivity|].
    unfold _getWalletForAccount, bind, this, gets.
    destruct (find _ (wallets (self w))); reflexivity. }
  split; [|split].
  - unfold result, signingAccount, bind, this, gets, getAddress.
    rewrite Hw, Ht.
    destruct (find _ (wallets (self w2))) as [f|]; [|reflexivity].
    unfold _getPrivateKeyFor.
    destruct (String.eqb (toHex (ec_publicKey f)) EmptyString); [reflexivity|].
    unfold _getWalletForAccount, bind, this, gets. rewrite Hw.
    destruct (find _ (wallets (self w2))); reflexivity.
  - unfold exec, signingAccount, bind, this, gets. by rewrite Hsame.
  - destruct (signInputs_same_registry w1 w2 inputs Hw psbt) as [Hres Hst].
    destruct (signInputs_effect w1 inputs psbt) as (s1 & Hrun1 & _).
    destruct (signInputs_effect w2 inputs psbt) as (s2 & Hrun2 & _).
    unfold result, exec, signPsbt, bind in *.
    destruct (forEach signOne inputs (w1, psbt)) as [r1 st1].
    destruct (forEach signOne inputs (w2, psbt)) as [r2 st2].
    cbn [fst snd] in *. subst r2 st1 st2. cbn [snd] in Hst.
    apply app_inv_head in Hst. subst s2.
    destruct r1 as [[]| |]; [|split; reflexivity|split; reflexivity].
    unfold onSnd, psbt_call. cbn [fst snd].
    destruct (psbt_accepts (psbt ++ s1) FinalizeAllInputs); split; reflexivity.
Qed.

(** *** Errors of the state codec *)

(** X10. The static [deserialize] rejects a state before it constructs
    anything: with [numberOfAccounts] absent or an empty seed it throws its
    own error, of the kind DeserializationError, and with a seed that is not
    hexadecimal the error of [fromHex]; the world is as it was.  A state
    with 0 accounts and a decodable seed gives the instance of that seed
    with the state's address type, no account, and no child derived. *)
Theorem static_deserialize_rejects (w : World) (fuel : nat)
    (opts : SerializedHDKey) :
  (ser_numberOfAccounts opts = None \/ ser_seed opts = EmptyString ->
   static_deserialize fuel opts w = (Throw DeserializeWithoutSeed, w) /\
   kindOf DeserializeWithoutSeed = DeserializationError) /\
  (forall k,
   ser_numberOfAccounts opts = Some k ->
   ser_seed opts <> EmptyString ->
   fromHex (ser_seed opts) = None ->
   static_deserialize fuel opts w = (Throw HexError, w)) /\
  (forall s,
   ser_numberOfAccounts opts = Some 0 ->
   ser_seed opts <> EmptyString ->
   fromHex (ser_seed opts) = Some s ->
   static_deserialize fuel opts w =
   (Return (set_addressType (ser_addressType opts) (seeded s)),
    on_self (fun _ => set_addressType (ser_addressType opts) (seeded s)) w)).
Proof.
  split; [|split].
  - intros Hbad. split; [|reflexivity]. unfold static_deserialize.
    destruct (ser_numberOfAccounts opts) as [k|]; [|reflexivity].
    destruct Hbad as [Hbad|Hbad]; [discriminate|]. by rewrite Hbad.
  - intros k Hk Hne Hhex. unfold static_deserialize. rewrite Hk.
    apply String.eqb_neq in Hne. by rewrite Hne, Hhex.
  - intros s Hk Hne Hhex. unfold static_deserialize. rewrite Hk.
    apply String.eqb_neq in Hne. by rewrite Hne, Hhex.
Qed.

(** X11. An instance [deserialize] that does not return leaves its receiver
    as it was: the receiver is assigned only after the static method has
    returned an instance, and from then on nothing fails. *)
Theorem deserialize_failure_keeps_receiver (w : World) (fuel : nat)
    (state : SerializedHDKey) :
  result (deserialize fuel state) w <> Return tt ->
  self (exec (deserialize fuel state) w) = self w.
Proof.
  unfold result, exec.
  assert (Hrun : deserialize fuel state w =
    match static_deserialize fuel state w with
    | (Return d, w1) =>
        match seed d with
        | Some s => (ret tt) (exec (fromOptions (toHex s))
                                (on_self (fun _ => self w) w1))
        | None => (Throw HexError, on_self (fun _ => self w) w1)
        end
    | (Throw e, w1) => (Throw e, on_self (fun _ => self w) w1)
    | (OutOfFuel, w1) => (OutOfFuel, on_self (fun _ => self w) w1)
    end).
  { unfold deserialize, bind at 1, restoringFocus.
    destruct (static_deserialize fuel state w) as [[d| |] w1]; try reflexivity.
    destruct (seed d) as [s|]; [|reflexivity].
    unfold bind, exec. by rewrite fromOptions_toHex. }
  rewrite Hrun.
  destruct (static_deserialize fuel state w) as [[d| |] w1]; try reflexivity.
  destruct (seed d) as [s|]; [|reflexivity].
  intros H. by destruct H.
Qed.

(** X12. A persisted state with a negative number of accounts and a
    decodable, non-empty seed makes [deserialize], static or not, never
    return: whatever fuel it is given, it is still in the loop of
    [addAccounts] when the fuel is spent. *)
Theorem deserialize_negative_never_returns (w : World) (sHex : string)
    (s : Bytes) (k : Z) (t : option AddressType) (fuel : nat) :
  fromHex sHex = Some s ->
  s <> [] ->
  k < 0 ->
  result (static_deserialize fuel (mkSerializedHDKey (Some k) sHex t)) w =
    OutOfFuel /\
  result (deserialize fuel (mkSerializedHDKey (Some k) sHex t)) w = OutOfFuel.
Proof.
  intros Hs Hne Hk.
  assert (Hstatic :
    result (static_deserialize fuel (mkSerializedHDKey (Some k) sHex t)) w =
    OutOfFuel).
  { unfold result, static_deserialize.
    cbn [ser_numberOfAccounts ser_seed ser_addressType].
    rewrite (fromHex_nonempty sHex s Hs Hne), Hs.
    unfold bind at 1. rewrite static_fromSeed_world.
    unfold bind at 1. cbn [assign modify].
    set (w1 := on_self (set_addressType t) (on_self (fun _ => seeded s) w)).
    assert (Hok1 : registry_ok (defaultRoot s) w1) by (by apply registry_ok_fresh).
    assert (Hk0 : (k =? 0) = false) by (apply Z.eqb_neq; lia). rewrite Hk0.
    destruct (addAccounts_negative _ w1 k fuel Hok1 Hk) as [Hres _].
    unfold result in Hres. unfold bind.
    destruct (addAccounts fuel k w1) as [[?| |] ?]; cbn in Hres |- *; congruence. }
  split; [exact Hstatic|].
  unfold result in *. unfold deserialize, bind at 1, restoringFocus.
  destruct (static_deserialize _ _ w) as [[?| |] ?]; cbn in Hstatic |- *; congruence.
Qed.

(** *** The initialisers *)

(** An instance without a root throws at its first lookup. *)
Lemma addAccounts_no_root (w : World) (n : Z) (fuel : nat) :
  root (self w) = None ->
  _index2wallet (self w) = ∅ ->
  n <> 0 ->
  addAccounts (S fuel) n w = (Throw TypeError, w).
Proof.
  intros Hr Hc Hn. unfold addAccounts, bind at 1, this, gets.
  rewrite addAccounts_loop_step by exact Hn.
  rewrite addressFromIndex_no_root; [reflexivity| |exact Hr].
  rewrite Hc. apply lookup_empty.
Qed.


(** X14. A seed that is not hexadecimal does not make the constructor (or
    [fromOptions]) throw: the promise of [fromOptions] is rejected, only
    [childIndex] has been assigned, and the constructor returns an instance
    that is as newly constructed, without seed or root, on which
    [addAccounts] with a count other than 0 throws a [TypeError]. *)
Theorem constructor_with_bad_seed (w : World) (seedHex : string) (n : Z)
    (fuel : nat) :
  fromHex seedHex = None ->
  fromOptions seedHex w = (Return (Rejected HexError), on_self (set_childIndex 0) w) /\
  exists w',
    constructor (Some seedHex) w = (Return tt, w') /\
    self w' = newHDPrivateKey /\
    (n <> 0 -> addAccounts (S fuel) n w' = (Throw TypeError, w')).
Proof.
  intros Hhex.
  assert (Hopt : forall w0, fromOptions seedHex w0 =
            (Return (Rejected HexError), on_self (set_childIndex 0) w0)).
  { intros w0. unfold fromOptions, async, bind at 1. cbn [assign modify].
    rewrite Hhex. reflexivity. }
  split; [apply Hopt|].
  unfold constructor, bind at 1. cbn [construct assign modify].
  unfold bind. rewrite Hopt.
  eexists. split; [reflexivity|]. split; [reflexivity|].
  intros Hn. by apply addAccounts_no_root.
Qed.

Variable toWIF : Bytes -> string.
(** *** Exporting keys *)

(** X15. The public key exported for an address leads back to the account:
    for the address of a registered account, [exportPublicKey] returns the
    public key, in hexadecimal, of an account with this address, and
    [findAccountByPk] on what it returned finds an account with that same
    public key, hence with this address; nothing is changed. *)
Theorem exportPublicKey_then_findAccountByPk (w : World) (address : string) :
  Exists (fun f => getAddress (self w) (ec_publicKey f) = address)
    (wallets (self w)) ->
  exists f g,
    exportPublicKey address w = (Return (toHex (ec_publicKey f)), w) /\
    (pk <- exportPublicKey address ;; findAccountByPk pk) w = (Return g, w) /\
    g ∈ wallets (self w) /\
    ec_publicKey g = ec_publicKey f /\
    getAddress (self w) (ec_publicKey g) = address.
Proof.
  intros Hsome.
  destruct (findAccount_registered w address Hsome) as (f & Hfind & Hin & Haddr).
  assert (Hexp : exportPublicKey address w = (Return (toHex (ec_publicKey f)), w)).
  { unfold exportPublicKey, bind. by rewrite Hfind. }
  unfold bind at 1. rewrite Hexp.
  unfold findAccountByPk, bind, this, gets.
  destruct (find _ (wallets (self w))) as [g|] eqn:Hg.
  - apply find_some in Hg as [Hgin Hsame].
    apply String.eqb_eq, toHex_inj in Hsame.
    exists f, g. split; [reflexivity|]. split; [reflexivity|].
    split; [by apply list_elem_of_In|]. split; [exact Hsame|].
    by rewrite Hsame.
  - exfalso. apply list_elem_of_In in Hin. apply (find_none _ _ Hg) in Hin.
    rewrite String.eqb_refl in Hin. discriminate.
Qed.

(** X16. [exportAccount] gives out the private key of a registered account
    with the address asked for, and no other: when it returns, what it
    returns is the import format of the key of such an account and nothing
    has changed; for an address that no registered account has (the root
    address, when no account shares it) it throws, as [exportPublicKey]
    does, the error of [findAccount], of the kind AccountNotFoundError. *)
Theorem exportAccount_registered_only (w : World) (address : string) :
  (forall s w',
   exportAccount toWIF address w = (Return s, w') ->
   w' = w /\
   exists f,
     f ∈ wallets (self w) /\
     getAddress (self w) (ec_publicKey f) = address /\
     s = toWIF (ec_privateKey f)) /\
  (Forall (fun f => getAddress (self w) (ec_publicKey f) <> address)
     (wallets (self w)) ->
   exportAccount toWIF address w = (Throw (AccountAddressNotFound address), w) /\
   exportPublicKey address w = (Throw (AccountAddressNotFound address), w) /\
   kindOf (AccountAddressNotFound address) = AccountNotFoundError).
Proof.
  split.
  - intros s w'. unfold exportAccount, bind, findAccount, bind, this, gets.
    destruct (find _ (wallets (self w))) as [f|] eqn:Hfind; [|discriminate].
    intros [= <- <-]. split; [reflexivity|].
    apply find_some in Hfind as [Hin Haddr]. apply String.eqb_eq in Haddr.
    exists f. split; [by apply list_elem_of_In|]. split; [exact Haddr|reflexivity].
  - intros Hnone. pose proof (findAccount_unregistered w address Hnone) as Hfind.
    split; [|split; [|reflexivity]].
    + unfold exportAccount, bind. by rewrite Hfind.
    + unfold exportPublicKey, bind. by rewrite Hfind.
Qed.

(** *** The two lookups by public key *)

(** X18. For a public key that is not the empty string, [_getPrivateKeyFor]
    and [findAccountByPk] find the same account, the first registered one
    with this key, and change nothing; when no registered account has the
    key they throw, each its own error.  For the empty string
    [_getPrivateKeyFor] throws before it searches. *)
Theorem publicKey_lookups_agree (w : World) (pk : string) :
  pk <> EmptyString ->
  (forall f,
     _getPrivateKeyFor pk w = (Return f, w) <->
     findAccountByPk pk w = (Return f, w)) /\
  (registered (self w) pk = true ->
   exists f,
     findAccountByPk pk w = (Return f, w) /\
     f ∈ wallets (self w) /\
     toHex (ec_publicKey f) = pk) /\
  (registered (self w) pk = false ->
   _getPrivateKeyFor pk w = (Throw NoMatchingPublicKey, w) /\
   findAccountByPk pk w = (Throw (AccountPublicKeyNotFound pk), w)) /\
  _getPrivateKeyFor EmptyString w = (Throw MustSpecifyPublicKey, w).
Proof.
  intros Hne. apply String.eqb_neq in Hne.
  unfold _getPrivateKeyFor, _getWalletForAccount, findAccountByPk, registered,
    bind, this, gets. rewrite Hne.
  destruct (find (fun f => String.eqb (toHex (ec_publicKey f)) pk)
              (wallets (self w))) as [f|] eqn:Hfind.
  - split; [tauto|].
    assert (Hex : existsb (fun f => String.eqb (toHex (ec_publicKey f)) pk)
                    (wallets (self w)) = true).
    { destruct (existsb _ _) eqn:E; [reflexivity|].
      apply find_none_iff in E. congruence. }
    split; [|split; [congruence|reflexivity]].
    intros _. apply find_some in Hfind as [Hin Heq].
    exists f. split; [reflexivity|].
    split; [by apply list_elem_of_In|by apply String.eqb_eq].
  - split; [split; discriminate|].
    apply find_none_iff in Hfind.
    split; [congruence|]. split; [|reflexivity]. intros _. split; reflexivity.
Qed.

(** *** Adding accounts in several calls *)

(** X19. Adding accounts in two calls or in one gives the same accounts: on
    an instance initialised from a seed with an empty registry,
    [addAccounts n] followed by [addAccounts m] returns, taken together, the
    addresses that [addAccounts (n + m)] returns, and [getAccounts] is the
    same afterwards. *)
Theorem addAccounts_additive (w : World) (r : HDNode) (n m : Z)
    (fuel : nat) :
  root (self w) = Some r ->
  wallets (self w) = [] ->
  _index2wallet (self w) = ∅ ->
  0 <= n -> 0 <= m ->
  2 * (n + m) <= Z.of_nat fuel ->
  exists first second w1 w2 w3,
    addAccounts fuel n w = (Return first, w1) /\
    addAccounts fuel m w1 = (Return second, w2) /\
    addAccounts fuel (n + m) w = (Return (first ++ second), w3) /\
    getAccounts (self w2) = getAccounts (self w3).
Proof.
  intros Hr Hw Hc Hn Hm Hfuel.
  pose proof (registry_ok_fresh r w Hr Hw Hc) as Hok.
  destruct (addAccounts_spec r w n fuel Hok Hn ltac:(lia))
    as (w1 & Hrun1 & Hok1 & Hlen1 & Hid1 & _).
  destruct (addAccounts_spec r w1 m fuel Hok1 Hm ltac:(lia))
    as (w2 & Hrun2 & Hok2 & Hlen2 & Hid2 & _).
  destruct (addAccounts_spec r w (n + m) fuel Hok ltac:(lia) Hfuel)
    as (w3 & Hrun3 & Hok3 & Hlen3 & Hid3 & _).
  rewrite Hw in Hrun1, Hlen1, Hrun3, Hlen3. cbn [length] in Hrun1, Hlen1, Hrun3, Hlen3.
  rewrite Hlen1 in Hrun2, Hlen2.
  destruct Hid1 as (Ht1 & _ & _ & Hpk1 & _).
  destruct Hid2 as (Ht2 & _ & _ & Hpk2 & _).
  destruct Hid3 as (Ht3 & _ & _ & Hpk3 & _).
  rewrite Ht1 in Hrun2.
  eexists _, _, w1, w2, w3. split; [exact Hrun1|]. split; [exact Hrun2|]. split.
  - rewrite Hrun3. do 2 f_equal. rewrite <- map_app. f_equal.
    rewrite seqZ_app by lia. do 2 f_equal. lia.
  - rewrite (getAccounts_registry r w2 Hok2), (getAccounts_registry r w3 Hok3).
    unfold getAddress. rewrite Ht2, Hpk2, Ht1, Hpk1, Ht3, Hpk3, Hlen2, Hlen3.
    do 3 f_equal. lia.
Qed.

End More.

(** ** The further properties at concrete inputs *)

(** The registry of the instance with two accounts. *)
Lemma toyWorld2_wallets :
  wallets (self toyWorld2) =
  [mkECPair 0 [Byte.x01; Byte.x0d; Byte.x01; Byte.x02];
   mkECPair 1 [Byte.x02; Byte.x0d; Byte.x01; Byte.x02]].
Proof. vm_compute. reflexivity. Qed.

(** The count -1 with five turns of fuel. *)
Lemma addAccounts_negative_never_returns_witness :
  result (@addAccounts toyPrims 5 (-1)) toyWorld = OutOfFuel /\
  (5 / 2 <= length (wallets (self (exec (@addAccounts toyPrims 5 (-1)) toyWorld))))%nat.
Proof.
  exact (@addAccounts_negative_never_returns toyPrims toyWorld
           (@defaultRoot toyPrims toySeed) (-1) 5 eq_refl eq_refl eq_refl
           ltac:(lia)).
Defined.

(** A newly constructed instance. *)
Lemma addAccounts_without_root_witness :
  @addAccounts toyPrims 1 2 (@newWorld toyPrims) = (Throw TypeError, @newWorld toyPrims).
Proof.
  apply (proj1 (@addAccounts_without_root toyPrims (@newWorld toyPrims) 2 0));
    [reflexivity|reflexivity|lia].
Defined.


(** Two accounts on the seed 01 02. *)
Lemma addAccounts_then_findAccount_witness :
  exists addresses w',
    @addAccounts toyPrims 4 2 toyWorld = (Return addresses, w') /\
    Forall (fun a => a ∈ @getAccounts toyPrims (self w')) addresses.
Proof.
  destruct (@addAccounts_then_findAccount toyPrims toyWorld
              (@defaultRoot toyPrims toySeed) 2 4 eq_refl eq_refl eq_refl
              ltac:(lia) ltac:(lia))
    as (addresses & w' & Hrun & Hall).
  exists addresses, w'. split; [exact Hrun|].
  eapply Forall_impl; [exact Hall|]. intros a [Ha _]. exact Ha.
Defined.

(** The instance with two accounts, moved to the path m/1. *)
Lemma changeHdPath_then_addAccounts_witness :
  exists w',
    (@changeHdPath toyPrims "m/1" ;;; @addAccounts toyPrims 4 2) toyWorld2 =
      (Return ["U0201030102"; "U0202030102"]%string, w') /\
    drop 1 (@getAccounts toyPrims (self w')) =
      ["U0201030102"; "U0202030102"]%string.
Proof.
  destruct (@changeHdPath_then_addAccounts toyPrims toyWorld2
              (@fromMasterSeed toyPrims toySeed) "m/1" 2 4 eq_refl eq_refl
              ltac:(lia) ltac:(lia))
    as (w' & Hrun & _ & Hacc).
  exists w'. split; [exact Hrun|exact Hacc].
Defined.


(** The instance with two accounts, and the same given another seed. *)
Lemma signing_reads_registry_only_witness :
  result (@signingAccount toyPrims "U02010d0102") toyWorld2 =
    result (@signingAccount toyPrims "U02010d0102")
      (exec (@fromSeed toyPrims [Byte.x09]) toyWorld2) /\
  result (@signPsbt toyPrims toyInputs) (toyWorld2, []) =
    result (@signPsbt toyPrims toyInputs)
      (exec (@fromSeed toyPrims [Byte.x09]) toyWorld2, []) /\
  snd (exec (@signPsbt toyPrims toyInputs) (toyWorld2, [])) =
    snd (exec (@signPsbt toyPrims toyInputs)
           (exec (@fromSeed toyPrims [Byte.x09]) toyWorld2, [])).
Proof.
  destruct (@signing_reads_registry_only toyPrims toyWorld2
              (exec (@fromSeed toyPrims [Byte.x09]) toyWorld2)
              "U02010d0102" "hi" toyInputs []
              ltac:(vm_compute; reflexivity) ltac:(vm_compute; reflexivity))
    as (_ & Hacc & _ & Hres & Hcalls).
  split; [exact Hacc|]. split; [exact Hres|exact Hcalls].
Defined.

(** A state without [numberOfAccounts], and one whose seed is not
    hexadecimal. *)
Lemma static_deserialize_rejects_witness :
  @static_deserialize toyPrims 4 (@mkSerializedHDKey toyPrims None "0102" None)
    toyWorld2 = (Throw DeserializeWithoutSeed, toyWorld2) /\
  @static_deserialize toyPrims 4 (@mkSerializedHDKey toyPrims (Some 2) "0g" None)
    toyWorld2 = (Throw HexError, toyWorld2).
Proof.
  split.
  - apply (proj1 (@static_deserialize_rejects toyPrims toyWorld2 4
                    (@mkSerializedHDKey toyPrims None "0102" None))).
    left. reflexivity.
  - apply (proj1 (proj2 (@static_deserialize_rejects toyPrims toyWorld2 4
                           (@mkSerializedHDKey toyPrims (Some 2) "0g" None))) 2);
      [reflexivity|discriminate|reflexivity].
Defined.

(** A state without [numberOfAccounts], on the instance with two accounts. *)
Lemma deserialize_failure_keeps_receiver_witness :
  self (exec (@deserialize toyPrims 4 (@mkSerializedHDKey toyPrims None "0102" None))
          toyWorld2) = self toyWorld2.
Proof.
  apply (@deserialize_failure_keeps_receiver toyPrims toyWorld2 4
           (@mkSerializedHDKey toyPrims None "0102" None)).
  vm_compute. discriminate.
Defined.

(** A state with -1 accounts, with five turns of fuel. *)
Lemma deserialize_negative_never_returns_witness :
  result (@static_deserialize toyPrims 5
            (@mkSerializedHDKey toyPrims (Some (-1)) "0102" None))
    (@newWorld toyPrims) = OutOfFuel /\
  result (@deserialize toyPrims 5
            (@mkSerializedHDKey toyPrims (Some (-1)) "0102" None))
    (@newWorld toyPrims) = OutOfFuel.
Proof.
  exact (@deserialize_negative_never_returns toyPrims (@newWorld toyPrims)
           "0102" toySeed (-1) None 5 eq_refl ltac:(discriminate) ltac:(lia)).
Defined.

(** The seed zz. *)
Lemma constructor_with_bad_seed_witness :
  exists w',
    @constructor toyPrims (Some "zz"%string) toyWorld2 = (Return tt, w') /\
    self w' = @newHDPrivateKey toyPrims /\
    @addAccounts toyPrims 1 1 w' = (Throw TypeError, w').
Proof.
  destruct (@constructor_with_bad_seed toyPrims toyWorld2 "zz" 1 0 eq_refl)
    as (_ & w' & Hrun & Hnew & Hadd).
  exists w'. split; [exact Hrun|]. split; [exact Hnew|].
  apply Hadd. lia.
Defined.

(** The address of the first account. *)
Lemma exportPublicKey_then_findAccountByPk_witness :
  exists g,
    (pk <- @exportPublicKey toyPrims "U02010d0102" ;; @findAccountByPk toyPrims pk)
      toyWorld2 = (Return g, toyWorld2) /\
    @getAddress toyPrims (self toyWorld2) (@ec_publicKey toyPrims g) =
      "U02010d0102"%string.
Proof.
  destruct (@exportPublicKey_then_findAccountByPk toyPrims toyWorld2 "U02010d0102"
              ltac:(rewrite toyWorld2_wallets; apply Exists_cons_hd; vm_compute; reflexivity))
    as (f & g & _ & Hrun & _ & _ & Haddr).
  exists g. split; [exact Hrun|exact Haddr].
Defined.

(** The root address, which no account has. *)
Lemma exportAccount_registered_only_witness :
  @exportAccount toyPrims toy_toWIF "U020d0102" toyWorld2 =
    (Throw (AccountAddressNotFound "U020d0102"), toyWorld2).
Proof.
  apply (proj2 (@exportAccount_registered_only toyPrims toy_toWIF toyWorld2
                  "U020d0102")).
  rewrite toyWorld2_wallets. repeat constructor; vm_compute; discriminate.
Defined.

(** The key of the first account. *)
Lemma publicKey_lookups_agree_witness :
  exists f,
    @findAccountByPk toyPrims "02010d0102" toyWorld2 = (Return f, toyWorld2) /\
    @_getPrivateKeyFor toyPrims "02010d0102" toyWorld2 = (Return f, toyWorld2).
Proof.
  destruct (@publicKey_lookups_agree toyPrims toyWorld2 "02010d0102"
              ltac:(discriminate)) as (Hiff & Hreg & _).
  destruct (Hreg eq_refl) as (f & Hfind & _).
  exists f. split; [exact Hfind|]. apply Hiff, Hfind.
Defined.

(** One account and then two, or three at once. *)
Lemma addAccounts_additive_witness :
  exists first second w1 w2 w3,
    @addAccounts toyPrims 6 1 toyWorld = (Return first, w1) /\
    @addAccounts toyPrims 6 2 w1 = (Return second, w2) /\
    @addAccounts toyPrims 6 (1 + 2) toyWorld = (Return (first ++ second), w3) /\
    @getAccounts toyPrims (self w2) = @getAccounts toyPrims (self w3).
Proof.
  exact (@addAccounts_additive toyPrims toyWorld (@defaultRoot toyPrims toySeed)
           1 2 6 eq_refl eq_refl eq_refl ltac:(lia) ltac:(lia) ltac:(lia)).
Defined.
